(** * downloader.py: Google Drive dataset downloader

    A shallow embedding of [downloader.py] and the properties of its
    acquisition and extraction engine.

    Conventions of the embedding.
    - Python [bytes] and [str] are both [string]: a [str] is read as its
      UTF-8 encoding.  Every literal character of the regular expressions
      and of the substring tests of the source is ASCII, so matching on the
      encoding selects the same fragments as matching on code points.
    - Python exceptions are values of [exn]; a function that may raise
      returns in the monad [M], which threads the observable world.
    - Library code that is not part of the repository ([html.unescape], the
      codecs, [zipfile.ZipFile]) is taken as a [Variable] of a [Section]. *)

From Stdlib Require Import Ascii String.
From stdpp Require Import base option list strings gmap.

Set Warnings "-register-all,-clear-no-such-hyp".

(** ** Text helpers *)

Module Text.

Definition dquote : ascii := "034"%char.
Definition squote : ascii := "039"%char.

(** [s[:n]] and [s[n:]]. *)
Fixpoint take (n : nat) (s : string) : string :=
  match n, s with
  | S n', String c s' => String c (take n' s')
  | _, _ => ""
  end.

Fixpoint drop (n : nat) (s : string) : string :=
  match n, s with
  | S n', String _ s' => drop n' s'
  | _, _ => s
  end.

(** [s.startswith(p)], and the rest of [s] after [p] when it does. *)
Fixpoint strip_prefix (p s : string) : option string :=
  match p, s with
  | "", _ => Some s
  | String a p', String b s' => if decide (a = b) then strip_prefix p' s' else None
  | String _ _, "" => None
  end.

Definition startswith (s p : string) : bool := bool_decide (is_Some (strip_prefix p s)).

(** [needle in s]. *)
Fixpoint contains (needle s : string) : bool :=
  startswith s needle ||
  match s with
  | "" => false
  | String _ s' => contains needle s'
  end.

(** [s.endswith(p)]. *)
Fixpoint endswith (s p : string) : bool :=
  bool_decide (s = p) ||
  match s with
  | "" => false
  | String _ s' => endswith s' p
  end.

(** [str.lower] on header text: only the ASCII capitals have an ASCII
    image, the other characters never turn into one. *)
Definition lower_char (c : ascii) : ascii :=
  let n := nat_of_ascii c in
  if (65 <=? n) && (n <=? 90) then ascii_of_nat (n + 32) else c.

Fixpoint lower (s : string) : string :=
  match s with
  | "" => ""
  | String c s' => String (lower_char c) (lower s')
  end.

(** [s.replace(old, new)] for a non-empty [old]: occurrences are replaced
    from the left and do not overlap; [skip] counts the characters of the
    current occurrence that are still to be dropped. *)
Fixpoint replace_from (old new : string) (skip : nat) (s : string) : string :=
  match s with
  | "" => ""
  | String c s' =>
      match skip with
      | S k => replace_from old new k s'
      | 0 =>
          if startswith s old
          then new +:+ replace_from old new (String.length old - 1) s'
          else String c (replace_from old new 0 s')
      end
  end.

Definition replace (s old new : string) : string := replace_from old new 0 s.

(** [sep.join(l)]. *)
Fixpoint join (sep : string) (l : list string) : string :=
  match l with
  | [] => ""
  | [x] => x
  | x :: l' => x +:+ sep +:+ join sep l'
  end.

End Text.

(** ** Response Classifier: [_is_zip_response] *)

(** The four bytes P, K, 3, 4 of [first_bytes.startswith]. *)
Definition zip_magic : string :=
  String "P"%char (String "K"%char (String "003"%char (String "004"%char ""))).

Definition or_empty (o : option string) : string := default ""%string o.

Definition _is_zip_response
    (content_type content_disp : option string) (first_bytes : string) : bool :=
  let ct := Text.lower (or_empty content_type) in
  let cd := Text.lower (or_empty content_disp) in
  if Text.startswith first_bytes zip_magic then true
  else if Text.contains "application/zip" ct then true
  else if Text.contains "application/octet-stream" ct && Text.contains "attachment" cd then true
  else false.

(** ** The fragment of Python's [re] used by the source

    Every pattern of the source is a sequence of literal strings and of
    greedy repetitions of one character class, with capture groups around
    some of the items.  [match_here] follows the backtracking order of
    [re]: a repetition first takes the longest run and gives characters
    back one at a time; the first way that lets the rest of the pattern
    match is the answer. *)

Module Re.

Inductive atom :=
| Lit (s : string)                          (* a literal string *)
| Many (min : nat) (cls : ascii → bool).    (* [cls]* for 0, [cls]+ for 1 *)

(** An item is an atom and the capture group it lies in, if any. *)
Definition regex := list (option nat * atom).

(** A match: the text each item consumed, with the item's group. *)
Definition segments := list (option nat * string).

Fixpoint span (cls : ascii → bool) (s : string) : nat :=
  match s with
  | "" => 0
  | String c s' => if cls c then S (span cls s') else 0
  end.

Fixpoint greedy (k : string → option segments) (g : option nat)
    (min : nat) (s : string) (n : nat) : option segments :=
  match k (Text.drop n s) with
  | Some m => Some ((g, Text.take n s) :: m)
  | None =>
      match n with
      | 0 => None
      | S n' => if decide (min ≤ n') then greedy k g min s n' else None
      end
  end.

Fixpoint match_here (r : regex) : string → option segments :=
  match r with
  | [] => λ _, Some []
  | (g, a) :: r' =>
      let k := match_here r' in
      λ s,
        match a with
        | Lit l =>
            match Text.strip_prefix l s with
            | Some rest => cons (g, l) <$> k rest
            | None => None
            end
        | Many min cls =>
            let n := span cls s in
            if decide (min ≤ n) then greedy k g min s n else None
        end
  end.

(** [re.search(r, s)]: the match at the leftmost position that has one. *)
Fixpoint search (r : regex) (s : string) : option segments :=
  match match_here r s with
  | Some m => Some m
  | None =>
      match s with
      | "" => None
      | String _ s' => search r s'
      end
  end.

(** [m.group(i)] *)
Fixpoint group (i : nat) (m : segments) : string :=
  match m with
  | [] => ""
  | (g, t) :: m' => if decide (g = Some i) then t +:+ group i m' else group i m'
  end.

(** [m.group(0)], the whole text of the match, and its length. *)
Fixpoint group0 (m : segments) : string :=
  match m with
  | [] => ""
  | (_, t) :: m' => t +:+ group0 m'
  end.

Definition consumed (m : segments) : nat := String.length (group0 m).

(** [re.findall(r, s)]: the matches from left to right, none overlapping
    another.  Every round consumes a character, so [S (length s)] rounds
    are enough. *)
Fixpoint findall_from (fuel : nat) (r : regex) (s : string) : list segments :=
  match fuel with
  | 0 => []
  | S fuel' =>
      match match_here r s with
      | Some m =>
          match consumed m with
          | 0 => m :: match s with "" => [] | String _ s' => findall_from fuel' r s' end
          | S n => m :: findall_from fuel' r (Text.drop (S n) s)
          end
      | None =>
          match s with
          | "" => []
          | String _ s' => findall_from fuel' r s'
          end
      end
  end.

Definition findall (r : regex) (s : string) : list segments :=
  findall_from (S (String.length s)) r s.

(** Character classes of the source's patterns. *)
Definition not_gt (c : ascii) : bool := bool_decide (c ≠ ">"%char).        (* any character but > *)
Definition not_dq (c : ascii) : bool := bool_decide (c ≠ Text.dquote).     (* any character but the double quote *)
Definition not_quote (c : ascii) : bool :=                                 (* any character but the two quotes *)
  bool_decide (c ≠ Text.dquote) && bool_decide (c ≠ Text.squote).
Definition token_char (c : ascii) : bool :=                                (* [0-9A-Za-z_-] *)
  let n := nat_of_ascii c in
  ((48 <=? n) && (n <=? 57)) || ((65 <=? n) && (n <=? 90)) ||
  ((97 <=? n) && (n <=? 122)) || bool_decide (c = "_"%char) || bool_decide (c = "-"%char).

End Re.

(** ** [urllib.parse.urlencode] *)

Module Url.

(** The characters [quote] never escapes: letters, digits and [_.-~]. *)
Definition always_safe (c : ascii) : bool :=
  let n := nat_of_ascii c in
  ((48 <=? n) && (n <=? 57)) || ((65 <=? n) && (n <=? 90)) ||
  ((97 <=? n) && (n <=? 122)) ||
  bool_decide (c = "_"%char) || bool_decide (c = "."%char) ||
  bool_decide (c = "-"%char) || bool_decide (c = "~"%char).

Definition hex_digit (n : nat) : ascii :=
  if n <? 10 then ascii_of_nat (48 + n) else ascii_of_nat (55 + n).

(** [quote_plus]: a space becomes [+], any other unsafe byte [%XX]. *)
Fixpoint quote_plus (s : string) : string :=
  match s with
  | "" => ""
  | String c s' =>
      if always_safe c then String c (quote_plus s')
      else if bool_decide (c = " "%char) then String "+"%char (quote_plus s')
      else
        let n := nat_of_ascii c in
        String "%"%char (String (hex_digit (n / 16)) (String (hex_digit (n mod 16)) (quote_plus s')))
  end.

Definition urlencode (params : list (string * string)) : string :=
  Text.join "&" ((λ kv, quote_plus kv.1 +:+ "=" +:+ quote_plus kv.2) <$> params).

End Url.

(** ** Interstitial URL Extractor: [_extract_download_url_from_html] *)

Module Patterns.
Import Re.

Definition dq : string := String Text.dquote "".

(** The form pattern, with Q the double quote: [<form], one or more
    non-[>], [action=Q], group 1 of one or more non-Q, Q. *)
Definition form_re : regex :=
  [ (None, Lit "<form"); (None, Many 1 not_gt); (None, Lit ("action=" +:+ dq));
    (Some 1, Many 1 not_dq); (None, Lit dq) ].

(** The input pattern: [<input], one or more non-[>], [name=Q], group 1 of
    one or more non-Q, Q, one or more non-[>], [value=Q], group 2 of zero
    or more non-Q, Q. *)
Definition input_re : regex :=
  [ (None, Lit "<input"); (None, Many 1 not_gt); (None, Lit ("name=" +:+ dq));
    (Some 1, Many 1 not_dq); (None, Lit dq); (None, Many 1 not_gt);
    (None, Lit ("value=" +:+ dq)); (Some 2, Many 0 not_dq); (None, Lit dq) ].

(** The four direct-link patterns, in the order of the source's list. *)
Definition patterns : list regex :=
  [ [ (None, Lit ("href=" +:+ dq)); (Some 1, Lit "/uc?export=download");
      (Some 1, Many 1 not_dq); (None, Lit dq) ];
    [ (Some 1, Lit "https://drive.google.com/uc?export=download");
      (Some 1, Many 1 not_quote) ];
    [ (Some 1, Lit "https://drive.usercontent.google.com/download?");
      (Some 1, Many 1 not_quote) ];
    [ (Some 1, Lit "https://drive.usercontent.google.com/uc?");
      (Some 1, Many 1 not_quote) ] ].

(** [confirm=] and group 1 of one or more token characters. *)
Definition confirm_re : regex :=
  [ (None, Lit "confirm="); (Some 1, Many 1 token_char) ].

End Patterns.

(** [dict(pairs)]: a later pair replaces an earlier one with the same key. *)
Definition dict (pairs : list (string * string)) : gmap string string :=
  foldl (λ d kv, <[kv.1 := kv.2]> d) ∅ pairs.

(** [d.setdefault(k, v)], for its effect on [d]. *)
Definition setdefault (k v : string) (d : gmap string string) : gmap string string :=
  match d !! k with
  | Some _ => d
  | None => <[k := v]> d
  end.

(** The tuple the source enumerates to build [params]. *)
Definition recognized : list string := ["id"; "export"; "confirm"; "uuid"].

(** [{k: inputs[k] for k in recognized if k in inputs}], in insertion order. *)
Definition select_params (inputs : gmap string string) : list (string * string) :=
  omap (λ k, pair k <$> inputs !! k) recognized.

(** The body of the loop over [patterns]: the first pattern that matches
    decides the result. *)
Fixpoint first_link (pats : list Re.regex) (s : string) : option string :=
  match pats with
  | [] => None
  | pat :: pats' =>
      match Re.search pat s with
      | None => first_link pats' s
      | Some m =>
          let url := Re.group 1 m in
          let url := Text.replace url "&amp;" "&" in
          let url := if Text.startswith url "/" then "https://drive.google.com" +:+ url else url in
          Some url
      end
  end.

Section Extractor.

(** [html.unescape] followed by the [unicode_escape] round trip of the
    source (or [html.unescape] alone when the round trip raises). *)
Variable unescape : string → string.

(** The form strategy: [None] where the source falls through to the
    direct-link patterns. *)
Definition form_url (s file_id : string) : option string :=
  match Re.search Patterns.form_re s with
  | None => None
  | Some form_action =>
      let action := Text.replace (Re.group 1 form_action) "&amp;" "&" in
      let inputs := dict ((λ m, (Re.group 1 m, Re.group 2 m)) <$> Re.findall Patterns.input_re s) in
      let inputs := setdefault "id" file_id inputs in
      let params := select_params inputs in
      if bool_decide (params ≠ []) && Text.startswith action "http"
      then Some (action +:+ "?" +:+ Url.urlencode params)
      else None
  end.

Definition confirm_url (s file_id : string) : option string :=
  match Re.search Patterns.confirm_re s with
  | Some m =>
      let confirm := Re.group 1 m in
      Some ("https://drive.google.com/uc?export=download&confirm=" +:+ confirm +:+ "&id=" +:+ file_id)
  | None => None
  end.

Definition _extract_download_url_from_html (page file_id : string) : option string :=
  let s := unescape page in
  match form_url s file_id with
  | Some url => Some url
  | None =>
      match first_link Patterns.patterns s with
      | Some url => Some url
      | None => confirm_url s file_id
      end
  end.

End Extractor.

(** ** The observable world and the exception monad *)

Inductive exn :=
| RuntimeError (msg : string)
| URLError                      (* any failure raised by [opener.open] *)
| BadZipFile
| FileNotFoundError
| IsADirectoryError
| OSError.                      (* the other filesystem failures *)

Inductive result (A : Type) :=
| Ok (a : A)
| Raise (e : exn).
Arguments Ok {A} a.
Arguments Raise {A} e.

(** What [opener.open] returns: the two headers the source reads and the
    whole body of the response. *)
Record response := {
  content_type : option string;
  content_disposition : option string;
  body : string;
}.

(** A file or a directory; a directory lists its entries in the order
    [os.scandir] reports them. *)
Inductive node :=
| File (data : string)
| Dir (children : list (string * node)).

(** One entry of an opened archive: its path inside the archive, its data
    ([None] for a directory entry) and whether its stored checksum agrees
    with its data. *)
Record member := {
  m_path : list string;
  m_data : option string;
  m_ok : bool;
}.

(** What a run does to the outside, in program order: a request, or a
    change to one of the three paths it works on.  What is written inside
    the scratch directory is one event, [Unpacked]. *)
Inductive event :=
| Requested (url : string)        (* [opener.open] *)
| WroteArchive                    (* [open(out_zip, wb)] and the copy into it *)
| UnlinkedArchive                 (* [out_zip.unlink()] *)
| RemovedDestination              (* [shutil.rmtree(dataset_dir)] *)
| MadeDestination                 (* [dest_dir.mkdir] *)
| Copied (name : string)          (* [shutil.copy2] into the destination *)
| MadeScratch                     (* [tempfile.mkdtemp] *)
| Unpacked                        (* [zf.extractall(tmp_dir)] *)
| RemovedScratch.                 (* [shutil.rmtree(tmp_dir)] *)

(** The world one call of [ensure_dataset] acts on: the journal of its
    effects, the URLs requested so far, [base / dataset.zip],
    [base / dataset_dirname] (a directory of files, by name) and the
    directory made by [tempfile.mkdtemp].  The three paths are distinct.
    A response arrives whole, and removing or writing a path succeeds: a
    connection that breaks while a body is read, and a file system that
    refuses, are outside the model. *)
Record world := {
  journal : list event;
  requests : list string;
  out_zip : option string;
  dataset_dir : option (gmap string string);
  tmp_dir : option node;
}.

Definition record (ev : event) (w : world) : world :=
  {| journal := journal w ++ [ev]; requests := requests w; out_zip := out_zip w;
     dataset_dir := dataset_dir w; tmp_dir := tmp_dir w |}.
Definition set_requests (f : list string → list string) (w : world) : world :=
  {| journal := journal w; requests := f (requests w); out_zip := out_zip w;
     dataset_dir := dataset_dir w; tmp_dir := tmp_dir w |}.
Definition set_out_zip (z : option string) (w : world) : world :=
  {| journal := journal w; requests := requests w; out_zip := z;
     dataset_dir := dataset_dir w; tmp_dir := tmp_dir w |}.
Definition set_dataset_dir (d : option (gmap string string)) (w : world) : world :=
  {| journal := journal w; requests := requests w; out_zip := out_zip w;
     dataset_dir := d; tmp_dir := tmp_dir w |}.
Definition set_tmp_dir (t : option node) (w : world) : world :=
  {| journal := journal w; requests := requests w; out_zip := out_zip w;
     dataset_dir := dataset_dir w; tmp_dir := t |}.

(** A request, in the journal and in the list the service sees. *)
Definition requested (url : string) (w : world) : world :=
  record (Requested url) (set_requests (λ l, l ++ [url]) w).

(** The changes to the three paths, each with its entry in the journal. *)
Definition wrote_archive (data : string) (w : world) : world :=
  record WroteArchive (set_out_zip (Some data) w).
Definition unlinked_archive (w : world) : world :=
  record UnlinkedArchive (set_out_zip None w).
Definition removed_destination (w : world) : world :=
  record RemovedDestination (set_dataset_dir None w).
Definition made_destination (w : world) : world :=
  record MadeDestination (set_dataset_dir (Some ∅) w).
Definition copied (name data : string) (d : gmap string string) (w : world) : world :=
  record (Copied name) (set_dataset_dir (Some (<[name := data]> d)) w).
Definition made_scratch (w : world) : world :=
  record MadeScratch (set_tmp_dir (Some (Dir [])) w).
Definition unpacked (cs : list (string * node)) (w : world) : world :=
  record Unpacked (set_tmp_dir (Some (Dir cs)) w).
Definition removed_scratch (w : world) : world :=
  record RemovedScratch (set_tmp_dir None w).

Definition M (A : Type) : Type := world → world * result A.

Definition ret {A} (a : A) : M A := λ w, (w, Ok a).
Definition raise {A} (e : exn) : M A := λ w, (w, Raise e).
Definition bind {A B} (m : M A) (k : A → M B) : M B :=
  λ w, match m w with
       | (w', Ok a) => k a w'
       | (w', Raise e) => (w', Raise e)
       end.
Definition get : M world := λ w, (w, Ok w).
Definition modify (f : world → world) : M unit := λ w, (f w, Ok tt).

(** [try: body finally: cleanup] *)
Definition finally {A} (body : M A) (cleanup : world → world) : M A :=
  λ w, let '(w', r) := body w in (cleanup w', r).

Global Instance M_ret : MRet M := @ret.
Global Instance M_bind : MBind M := λ A B k m, bind m k.

(** ** Directory trees: [ZipFile.extractall] and [Path.rglob] *)

Module Tree.

Fixpoint assoc (name : string) (cs : list (string * node)) : option node :=
  match cs with
  | [] => None
  | (n, c) :: cs' => if decide (n = name) then Some c else assoc name cs'
  end.

(** Replace the entry [name], or add it after the others. *)
Fixpoint set_child (name : string) (c : node) (cs : list (string * node))
    : list (string * node) :=
  match cs with
  | [] => [(name, c)]
  | (n, c') :: cs' =>
      if decide (n = name) then (n, c) :: cs' else (n, c') :: set_child name c cs'
  end.

(** Extract one entry at path [p] below a directory with entries [cs]:
    missing parent directories are made, a file replaces a file of the
    same name, a directory entry keeps a directory that is there.
    [None] is an [OSError] (a file in the way of a directory, or a
    directory in the way of a file). *)
Fixpoint write_at (p : list string) (data : option string)
    (cs : list (string * node)) : option (list (string * node)) :=
  match p with
  | [] => match data with None => Some cs | Some _ => None end
  | [n] =>
      match data, assoc n cs with
      | Some d, Some (Dir _) => None
      | Some d, _ => Some (set_child n (File d) cs)
      | None, Some (Dir _) => Some cs
      | None, Some (File _) => None
      | None, None => Some (set_child n (Dir []) cs)
      end
  | n :: p' =>
      match assoc n cs with
      | Some (File _) => None
      | Some (Dir sub) => (λ sub', set_child n (Dir sub') cs) <$> write_at p' data sub
      | None => (λ sub', set_child n (Dir sub') cs) <$> write_at p' data []
      end
  end.

(** [zf.extractall(tmp_dir)]: the entries in archive order.  The result
    is the tree reached and the exception that stopped the extraction,
    if one did: [BadZipFile] at an entry whose checksum fails. *)
Fixpoint extractall (ms : list member) (cs : list (string * node))
    : list (string * node) * option exn :=
  match ms with
  | [] => (cs, None)
  | m :: ms' =>
      if m_ok m then
        match write_at (m_path m) (m_data m) cs with
        | Some cs' => extractall ms' cs'
        | None => (cs, Some OSError)
        end
      else (cs, Some BadZipFile)
  end.

(** [root.rglob(pattern)] for a one-component pattern: the directories
    below [root], [root] first and parents before children, each giving
    its entries whose name matches; files and directories alike.
    [here] is the path of [root]. *)
Fixpoint rglob (matches : string → bool) (here : list string) (root : node)
    : list (list string * node) :=
  match root with
  | File _ => []
  | Dir cs =>
      ((λ nc, (here ++ [nc.1], nc.2)) <$> filter (λ nc, matches nc.1 = true) cs) ++
      (fix below (cs : list (string * node)) : list (list string * node) :=
         match cs with
         | [] => []
         | (n, c) :: cs' => rglob matches (here ++ [n]) c ++ below cs'
         end) cs
  end.

(** [f.name] *)
Definition name (p : list string) : string := default "" (last p).

End Tree.

(** [fnmatch] against the pattern [*.csv] on a case-sensitive file system. *)
Definition is_csv (name : string) : bool := Text.endswith name ".csv".

(** [zf.testzip()]: the name of the first entry whose checksum fails. *)
Definition testzip (ms : list member) : option (list string) :=
  m_path <$> head (filter (λ m, m_ok m = false) ms).

(** ** The engine: [_download_gdrive_zip], [_extract_csvs], [ensure_dataset] *)

Definition FILE_ID : string := "1HJgF25M5Fq8LbV2XMWWxp_ApT1TbqbIn".
Definition SHARE_URL : string :=
  "https://drive.google.com/file/d/" +:+ FILE_ID +:+ "/view?usp=sharing".

Definition no_url_msg : string :=
  "Failed to obtain Google Drive download URL/confirm token. " +:+
  "Try opening the share link in a browser to verify access: " +:+ SHARE_URL.
Definition still_html_msg : string :=
  "Download still returned HTML (not a zip). Network or Drive interstitial changed.".
Definition invalid_zip_msg : string :=
  "Downloaded file is not a valid zip. Re-run or check access.".
Definition no_csv_msg : string := "No CSV files found after extraction.".

(** [not url], for an optional string. *)
Definition falsy (url : option string) : bool :=
  match url with
  | None | Some "" => true
  | Some _ => false
  end.

(** The [uc?export=download] endpoint the negotiation starts with. *)
Definition initial_url (file_id : string) : string :=
  "https://drive.google.com/uc?export=download&id=" +:+ file_id.

Section Engine.

(** [html.unescape] and the escape round trip, see [Extractor]. *)
Variable unescape : string → string.
(** [bytes.decode] with the codec utf-8 and [errors] set to ignore. *)
Variable decode : string → string.
(** [zipfile.ZipFile(path, mode r)] on the bytes of the file: the entries
    of the archive, or [None] where it raises [BadZipFile]. *)
Variable ZipFile : string → option (list member).
(** The remote service: the response to the last URL of the list, given
    the URLs requested before it in this session; [None] where
    [opener.open] raises. *)
Variable server : list string → option response.

Definition open_url (url : string) : M response :=
  λ w,
    let w' := requested url w in
    match server (requests w') with
    | Some resp => (w', Ok resp)
    | None => (w', Raise URLError)
    end.

(** [with open(out_zip, wb) as f: f.write(first); copyfileobj(resp, f)],
    with the body copied whole. *)
Definition write_zip (data : string) : M unit := modify (wrote_archive data).

(** The block under the comment [Validate]: only [BadZipFile] is caught,
    and what [testzip] returns is not looked at. *)
Definition validate : M unit :=
  w ← get;
  match out_zip w with
  | None => raise FileNotFoundError
  | Some data =>
      match ZipFile data with
      | None => raise (RuntimeError invalid_zip_msg)
      | Some zf => let _ := testzip zf in ret tt
      end
  end.

Definition classify (resp : response) (first : string) : bool :=
  _is_zip_response (content_type resp) (content_disposition resp) first.

Definition _download_gdrive_zip (file_id : string) : M unit :=
  let initial := initial_url file_id in
  resp ← open_url initial;
  let first := Text.take 4 (body resp) in
  if classify resp first then
    write_zip (first +:+ Text.drop 4 (body resp))
    (* return *)
  else
    let page := decode (first +:+ Text.drop 4 (body resp)) in
    let confirm_url := _extract_download_url_from_html unescape page file_id in
    if falsy confirm_url then raise (RuntimeError no_url_msg)
    else
      resp2 ← open_url (default "" confirm_url);
      let first2 := Text.take 4 (body resp2) in
      (if negb (classify resp2 first2) then
         let page2 := decode (first2 +:+ Text.drop 4 (body resp2)) in
         let confirm_url2 := _extract_download_url_from_html unescape page2 file_id in
         if falsy confirm_url2 then raise (RuntimeError still_html_msg)
         else
           resp3 ← open_url (default "" confirm_url2);
           write_zip (body resp3)
       else
         write_zip (first2 +:+ Text.drop 4 (body resp2)));;
      validate.

(** [tempfile.mkdtemp]: a fresh, empty directory. *)
Definition mkdtemp : M unit := modify made_scratch.

(** [with zipfile.ZipFile(zip_path) as zf: zf.extractall(tmp_dir)] *)
Definition unpack : M unit :=
  w ← get;
  match out_zip w with
  | None => raise FileNotFoundError
  | Some data =>
      match ZipFile data with
      | None => raise BadZipFile
      | Some zf =>
          let '(cs, e) := Tree.extractall zf [] in
          modify (unpacked cs);;
          match e with
          | Some e => raise e
          | None => ret tt
          end
      end
  end.

(** The two-tier search of [_extract_csvs] in the scratch tree [cs]. *)
Definition find_csvs (cs : list (string * node)) : list (list string * node) :=
  let csvs :=
    match Tree.assoc "dataset" cs with
    | Some (Dir sub) => Tree.rglob is_csv ["dataset"] (Dir sub)
    | _ => Tree.rglob is_csv [] (Dir cs)
    end in
  match csvs with
  | [] => Tree.rglob is_csv [] (Dir cs)
  | _ => csvs
  end.

(** [shutil.copy2(f, dest_dir / f.name)] *)
Definition copy2 (f : list string * node) : M unit :=
  match f.2 with
  | Dir _ => raise IsADirectoryError
  | File data =>
      w ← get;
      match dataset_dir w with
      | None => raise FileNotFoundError
      | Some d => modify (copied (Tree.name f.1) data d)
      end
  end.

Fixpoint copy_all (csvs : list (list string * node)) : M unit :=
  match csvs with
  | [] => ret tt
  | f :: csvs' => copy2 f;; copy_all csvs'
  end.

Definition _extract_csvs : M unit :=
  mkdtemp;;
  finally
    (unpack;;
     w ← get;
     let csvs :=
       match tmp_dir w with
       | Some (Dir cs) => find_csvs cs
       | _ => []
       end in
     match csvs with
     | [] => raise (RuntimeError no_csv_msg)
     | _ =>
         w ← get;
         (if bool_decide (is_Some (dataset_dir w))
          then modify removed_destination else ret tt);;
         modify made_destination;;
         copy_all csvs
     end)
    removed_scratch.

Definition ensure_dataset (file_id : string) (keep_zip : bool) : M unit :=
  w ← get;
  (if bool_decide (is_Some (dataset_dir w))
   then modify removed_destination else ret tt);;
  w ← get;
  (if bool_decide (is_Some (out_zip w)) && negb keep_zip
   then modify unlinked_archive else ret tt);;
  _download_gdrive_zip file_id;;
  _extract_csvs;;
  w ← get;
  (if negb keep_zip && bool_decide (is_Some (out_zip w))
   then modify unlinked_archive else ret tt);;
  ret tt.

End Engine.

(** ** The vocabulary of the specification *)

(** The error kinds of the specification and the exceptions of the source
    that they name. *)
Inductive error_kind :=
| TransportError
| InterstitialUnresolved
| InvalidArchive
| NoMatchingFiles
| Unclassified.

Definition kind_of (e : exn) : error_kind :=
  match e with
  | URLError => TransportError
  | RuntimeError msg =>
      if decide (msg = no_url_msg) then InterstitialUnresolved
      else if decide (msg = still_html_msg) then InterstitialUnresolved
      else if decide (msg = invalid_zip_msg) then InvalidArchive
      else if decide (msg = no_csv_msg) then NoMatchingFiles
      else Unclassified
  | _ => Unclassified
  end.




(** The value of the last pair named [k]. *)
Fixpoint last_value (k : string) (pairs : list (string * string)) : option string :=
  match pairs with
  | [] => None
  | (n, v) :: pairs' =>
      match last_value k pairs' with
      | Some v' => Some v'
      | None => if decide (n = k) then Some v else None
      end
  end.

(** The query parameters in the words of the specification: the recognized
    names that are present among the input pairs, in the fixed order, with
    [id] defaulted to the resource identifier. *)
Definition spec_params (pairs : list (string * string)) (file_id : string)
    : list (string * string) :=
  omap (λ k,
    match last_value k pairs with
    | Some v => Some (k, v)
    | None => if decide (k = "id") then Some (k, file_id) else None
    end) recognized.

(** The name and value pairs of the input pattern in the text [s]. *)
Definition input_pairs (s : string) : list (string * string) :=
  (λ m, (Re.group 1 m, Re.group 2 m)) <$> Re.findall Patterns.input_re s.

(** The two search tiers in the words of the specification. *)
Definition tier1 (cs : list (string * node)) : list (list string * node) :=
  match Tree.assoc "dataset" cs with
  | Some (Dir sub) => Tree.rglob is_csv ["dataset"] (Dir sub)
  | _ => []
  end.

Definition tier2 (cs : list (string * node)) : list (list string * node) :=
  Tree.rglob is_csv [] (Dir cs).

Definition two_tier (cs : list (string * node)) : list (list string * node) :=
  match tier1 cs with
  | [] => tier2 cs
  | found => found
  end.

Definition is_file (f : list string * node) : Prop :=
  match f.2 with File _ => True | Dir _ => False end.

(** [if dest_dir.exists(): shutil.rmtree(dest_dir)] and [dest_dir.mkdir]. *)
Definition recreated_destination (w : world) : world :=
  made_destination
    (if bool_decide (is_Some (dataset_dir w)) then removed_destination w else w).

(** The world in which [ensure_dataset] issues its first request: the old
    destination is gone, and so is an old archive that is not kept. *)
Definition refreshed (keep_zip : bool) (w : world) : world :=
  let w := if bool_decide (is_Some (dataset_dir w)) then removed_destination w else w in
  if bool_decide (is_Some (out_zip w)) && negb keep_zip then unlinked_archive w else w.

(** ** Concrete runs *)

Module Run.

(** Stand-ins for the library on the inputs of the runs below.  The pages
    have no entities and no escapes, so the two decoders leave them as
    they are.  Three byte strings stand for archives: [archive] for one
    with [dataset/a.csv], [dataset/b.csv] and [readme.txt]; [damaged] for
    the same with a wrong checksum on [dataset/b.csv]; [no_csv] for one
    with [readme.txt] alone.  Every other body, such as an HTML page, is
    not an archive. *)
Definition plain (s : string) : string := s.

Definition archive : string := zip_magic +:+ "[dataset/a.csv][dataset/b.csv][readme.txt]".
Definition damaged : string := zip_magic +:+ "[dataset/a.csv][dataset/b.csv!][readme.txt]".
Definition no_csv : string := zip_magic +:+ "[readme.txt]".

Definition entries (b_ok : bool) : list member :=
  [ {| m_path := ["dataset"; "a.csv"]; m_data := Some "a,1"; m_ok := true |};
    {| m_path := ["dataset"; "b.csv"]; m_data := Some "b,2"; m_ok := b_ok |};
    {| m_path := ["readme.txt"]; m_data := Some "read me"; m_ok := true |} ].

Definition ZipFile (data : string) : option (list member) :=
  if decide (data = archive) then Some (entries true)
  else if decide (data = damaged) then Some (entries false)
  else if decide (data = no_csv) then
    Some [ {| m_path := ["readme.txt"]; m_data := Some "read me"; m_ok := true |} ]
  else None.

Definition html (s : string) : response :=
  {| content_type := Some "text/html; charset=utf-8"; content_disposition := None; body := s |}.

Definition octets (s : string) : response :=
  {| content_type := Some "application/octet-stream";
     content_disposition := Some "attachment; filename=dataset.zip"; body := s |}.

(** A service that answers the [n]-th request of a session with the
    [n]-th response of [script], whatever the URL. *)
Definition scripted (script : list response) (urls : list string) : option response :=
  script !! (length urls - 1).

Definition quoted (s : string) : string := Patterns.dq +:+ s +:+ Patterns.dq.

(** An interstitial page with a download form. *)
Definition form_page (action : string) : string :=
  "<html><body><form id=" +:+ quoted "download-form" +:+ " action=" +:+ quoted action +:+
  " method=" +:+ quoted "get" +:+ ">" +:+
  "<input type=" +:+ quoted "hidden" +:+ " name=" +:+ quoted "confirm" +:+
  " value=" +:+ quoted "t" +:+ ">" +:+
  "<input type=" +:+ quoted "hidden" +:+ " name=" +:+ quoted "uuid" +:+
  " value=" +:+ quoted "u 1" +:+ ">" +:+
  "<input type=" +:+ quoted "submit" +:+ " name=" +:+ quoted "go" +:+
  " value=" +:+ quoted "Download anyway" +:+ "></form></body></html>".

Definition fresh : world :=
  {| journal := []; requests := []; out_zip := None; dataset_dir := None; tmp_dir := None |}.

(** A world that holds the destination of an earlier run. *)
Definition stale : world :=
  set_dataset_dir (Some {["old.csv" := "x"]}) fresh.

(** [ensure_dataset] and [_download_gdrive_zip] against a scripted service. *)
Definition run (script : list response) (keep_zip : bool) (w : world) : world * result unit :=
  ensure_dataset plain plain ZipFile (scripted script) "FID" keep_zip w.

Definition fetch (script : list response) (w : world) : world * result unit :=
  _download_gdrive_zip plain plain ZipFile (scripted script) "FID" w.

(** Two interstitial pages with a bare token, then a third page. *)
Definition three_pages : list response :=
  [ html "<html>Too large to scan, confirm=abc</html>";
    html "<html>Are you sure, confirm=def</html>";
    html "<html>Quota exceeded</html>" ].

(** An archive with the same file name at two depths of [dataset] and a
    file next to [dataset]. *)
Definition nested_entries : list member :=
  [ {| m_path := ["dataset"; "a.csv"]; m_data := Some "first"; m_ok := true |};
    {| m_path := ["dataset"; "sub"; "a.csv"]; m_data := Some "second"; m_ok := true |};
    {| m_path := ["extra.csv"]; m_data := Some "x"; m_ok := true |} ].

Definition nested_tree : list (string * node) :=
  [ ("dataset", Dir [ ("a.csv", File "first"); ("sub", Dir [ ("a.csv", File "second") ]) ]);
    ("extra.csv", File "x") ].

(** An archive with a directory whose name ends in [.csv]. *)
Definition dir_entries : list member :=
  [ {| m_path := ["dataset"; "a.csv"]; m_data := Some "a,1"; m_ok := true |};
    {| m_path := ["dataset"; "b.csv"; "part0"]; m_data := Some "b,2"; m_ok := true |};
    {| m_path := ["dataset"; "c.csv"]; m_data := Some "c,3"; m_ok := true |} ].

Definition dir_tree : list (string * node) :=
  [ ("dataset", Dir [ ("a.csv", File "a,1"); ("b.csv", Dir [ ("part0", File "b,2") ]);
                      ("c.csv", File "c,3") ]) ].



(** A world in which the archive file has been written. *)
Definition downloaded (data : string) : world := set_out_zip (Some data) fresh.

End Run.

(** The characters a query string made by [urlencode] is written in,
    apart from the separators it adds itself. *)
Definition query_char (c : ascii) : bool :=
  Url.always_safe c || bool_decide (c = "+"%char) || bool_decide (c = "%"%char).

(** The files among the search results, by name, in search order. *)
Definition named_files (csvs : list (list string * node)) : list (string * string) :=
  omap (λ f, match f.2 with
             | File data => Some (Tree.name f.1, data)
             | Dir _ => None
             end) csvs.

(** ** Relating the worlds before and after a computation *)

(** Every run of [m] takes a world to one related to it by [R]. *)
Definition steps {A} (R : relation world) (m : M A) : Prop :=
  ∀ w, R w (m w).1.

(** The request log grew by at most [n] URLs. *)
Definition grew_by (n : nat) (w w' : world) : Prop :=
  ∃ urls, requests w' = requests w ++ urls ∧ length urls ≤ n.

(** The journal was only added to. *)
Definition journal_grew (w w' : world) : Prop :=
  ∃ evs, journal w' = journal w ++ evs.

(** Nothing but the request log and the archive file changed. *)
Definition same_dirs (w w' : world) : Prop :=
  dataset_dir w' = dataset_dir w ∧ tmp_dir w' = tmp_dir w.

(** * Properties *)

(** ** Facts about text *)

Module TextFacts.
Import Text.

Lemma app_cons (c : ascii) (s t : string) :
  String c s +:+ t = String c (s +:+ t).
Proof. reflexivity. Qed.

Lemma app_nil_r (s : string) : s +:+ "" = s.
Proof. induction s as [|c s IH]; [done|]. by rewrite app_cons, IH. Qed.

Lemma app_assoc (s t u : string) : (s +:+ t) +:+ u = s +:+ t +:+ u.
Proof. induction s as [|c s IH]; [done|]. by rewrite !app_cons, IH. Qed.

Lemma length_app (s t : string) :
  String.length (s +:+ t) = String.length s + String.length t.
Proof. induction s as [|c s IH]; [done|]. rewrite app_cons. simpl. by rewrite IH. Qed.

Lemma take_drop (n : nat) (s : string) : take n s +:+ drop n s = s.
Proof.
  revert s; induction n as [|n IH]; intros [|c s]; try done.
  simpl. by rewrite app_cons, IH.
Qed.

Lemma take_app_length (s t : string) : take (String.length s) (s +:+ t) = s.
Proof.
  induction s as [|c s IH]; [by destruct t|].
  rewrite app_cons. simpl. by rewrite IH.
Qed.

Lemma drop_app_length (s t : string) : drop (String.length s) (s +:+ t) = t.
Proof. induction s as [|c s IH]; [done|]. by rewrite app_cons. Qed.

Lemma strip_prefix_app (p s : string) : strip_prefix p (p +:+ s) = Some s.
Proof.
  induction p as [|a p IH]; [done|].
  rewrite app_cons. simpl. by rewrite decide_True.
Qed.

Lemma strip_prefix_Some (p s r : string) : strip_prefix p s = Some r → s = p +:+ r.
Proof.
  revert s; induction p as [|a p IH]; intros s; simpl.
  - by intros [= ->].
  - destruct s as [|b s]; [done|]. destruct (decide (a = b)) as [->|]; [|done].
    intros Hr. rewrite app_cons. f_equal. by apply IH.
Qed.

(** A prefix test looks at no more than [length p] characters. *)
Lemma strip_prefix_short (p x y : string) :
  String.length p ≤ String.length x →
  is_Some (strip_prefix p (x +:+ y)) → is_Some (strip_prefix p x).
Proof.
  revert x; induction p as [|a p IH]; intros x Hlen; simpl; [eauto|].
  destruct x as [|b x]; simpl in Hlen; [lia|].
  rewrite app_cons. destruct (decide (a = b)); [|done].
  apply IH. lia.
Qed.

Lemma startswith_app (p s : string) : startswith (p +:+ s) p = true.
Proof. unfold startswith. rewrite strip_prefix_app. by apply bool_decide_eq_true. Qed.

Lemma startswith_take (n : nat) (s p : string) :
  take n s = p → startswith s p = true.
Proof.
  intros <-. rewrite <-(take_drop n s) at 1. apply startswith_app.
Qed.

End TextFacts.

(** ** The classifier *)

(** C8: whatever the two headers say, a body prefix whose first four bytes
    are the archive signature is classified as binary. *)
Theorem magic_bytes_win (content_type content_disp : option string) (first_bytes : string) :
  Text.take 4 first_bytes = zip_magic →
  _is_zip_response content_type content_disp first_bytes = true.
Proof.
  intros Hmagic. unfold _is_zip_response.
  by rewrite (TextFacts.startswith_take 4 _ _ Hmagic).
Qed.

Lemma magic_bytes_win_witness :
  Text.take 4 (zip_magic +:+ "...") = zip_magic ∧
  _is_zip_response (Some "text/html; charset=utf-8") (Some "inline") (zip_magic +:+ "...") = true.
Proof.
  split; [reflexivity|].
  apply (magic_bytes_win (Some "text/html; charset=utf-8") (Some "inline") (zip_magic +:+ "...")).
  reflexivity.
Defined.

(** ** The extractor *)

Module ReFacts.
Import Re Patterns.

(** The confirm pattern matches where the text reads [confirm=] and then
    a maximal run [tok] of one or more token characters; group 1 is the
    whole run. *)
Lemma match_confirm_here (tok post : string) :
  0 < String.length tok →
  span token_char (tok +:+ post) = String.length tok →
  match_here confirm_re ("confirm=" +:+ tok +:+ post)
  = Some [(None, "confirm="); (Some 1, tok)].
Proof.
  intros Hlen Hspan. unfold confirm_re, match_here.
  rewrite TextFacts.strip_prefix_app. cbv zeta. rewrite Hspan.
  rewrite decide_True by lia.
  destruct (String.length tok) as [|n] eqn:E; [lia|].
  unfold greedy. rewrite <-E, TextFacts.take_app_length. done.
Qed.

(** It matches nowhere the text does not read [confirm=]. *)
Lemma match_confirm_None (s : string) :
  Text.startswith s "confirm=" = false → match_here confirm_re s = None.
Proof.
  unfold Text.startswith. intros H%bool_decide_eq_false.
  unfold confirm_re, match_here.
  destruct (Text.strip_prefix "confirm=" s); [|done].
  exfalso. apply H. eauto.
Qed.

Lemma search_unfold (r : regex) (s : string) :
  search r s =
  match match_here r s with
  | Some m => Some m
  | None => match s with "" => None | String _ s' => search r s' end
  end.
Proof. by destruct s. Qed.

(** [search] returns the match at the first [confirm=] of the text. *)
Lemma search_confirm_first (pre rest : string) (m : segments) :
  Text.contains "confirm=" (pre +:+ "confirm") = false →
  match_here confirm_re ("confirm=" +:+ rest) = Some m →
  search confirm_re (pre +:+ "confirm=" +:+ rest) = Some m.
Proof.
  intros Hfirst Hm. induction pre as [|c pre IH].
  - change ("" +:+ "confirm=" +:+ rest) with ("confirm=" +:+ rest).
    by rewrite search_unfold, Hm.
  - rewrite TextFacts.app_cons in Hfirst. simpl in Hfirst.
    apply orb_false_iff in Hfirst as [Hhere Hlater].
    rewrite TextFacts.app_cons, search_unfold.
    rewrite match_confirm_None; [by apply IH|].
    apply bool_decide_eq_false. intros Hp.
    apply bool_decide_eq_false in Hhere. apply Hhere.
    apply (TextFacts.strip_prefix_short _ _ ("=" +:+ rest)).
    + simpl. rewrite TextFacts.length_app. simpl. lia.
    + rewrite TextFacts.app_cons, TextFacts.app_assoc. exact Hp.
Qed.

(** A match is a prefix of the text it was found in. *)
Lemma greedy_Some (k : string → option segments) (g : option nat) (min : nat)
    (s : string) (n : nat) (m : segments) :
  greedy k g min s n = Some m →
  ∃ j m', m = (g, Text.take j s) :: m' ∧ k (Text.drop j s) = Some m'.
Proof.
  induction n as [|n IH]; cbn [greedy].
  - destruct (k (Text.drop 0 s)) as [m'|] eqn:Hk; [|done].
    intros [= <-]. by exists 0, m'.
  - destruct (k (Text.drop (S n) s)) as [m'|] eqn:Hk.
    + intros [= <-]. by exists (S n), m'.
    + destruct (decide (min ≤ n)); [apply IH|done].
Qed.

Lemma match_here_prefix (r : regex) (s : string) (m : segments) :
  match_here r s = Some m → ∃ rest, s = group0 m +:+ rest.
Proof.
  revert s m; induction r as [|[g a] r IH]; intros s m; simpl.
  - intros [= <-]. by exists s.
  - destruct a as [l|min cls].
    + destruct (Text.strip_prefix l s) as [rest|] eqn:Hl; [|done].
      apply TextFacts.strip_prefix_Some in Hl as ->.
      destruct (match_here r rest) as [m'|] eqn:Hm'; [|done].
      intros [= <-]. apply IH in Hm' as [rest' ->].
      exists rest'. simpl. by rewrite TextFacts.app_assoc.
    + destruct (decide (min ≤ span cls s)); [|done].
      intros (j & m' & -> & Hm')%greedy_Some.
      apply IH in Hm' as [rest' Hrest].
      exists rest'. simpl.
      by rewrite TextFacts.app_assoc, <-Hrest, TextFacts.take_drop.
Qed.

Lemma match_here_consumed (r : regex) (s : string) (m : segments) :
  match_here r s = Some m → consumed m ≤ String.length s.
Proof.
  intros [rest ->]%match_here_prefix. unfold consumed.
  rewrite TextFacts.length_app. lia.
Qed.

Lemma length_drop (n : nat) (s : string) :
  String.length (Text.drop n s) = String.length s - n.
Proof. revert s; induction n as [|n IH]; intros [|c s]; simpl; auto. Qed.

(** [findall] never runs out of rounds: more fuel changes nothing. *)
Lemma findall_from_enough (r : regex) (n n' : nat) (s : string) :
  String.length s < n → String.length s < n' →
  findall_from n r s = findall_from n' r s.
Proof.
  revert n' s; induction n as [|n IH]; intros [|n'] s Hn Hn'; try lia.
  simpl. destruct (match_here r s) as [m|] eqn:Hm.
  - pose proof (match_here_consumed _ _ _ Hm) as Hc.
    destruct (consumed m) as [|c] eqn:Ec.
    + destruct s as [|ch s]; [done|]. simpl in *. f_equal. apply IH; lia.
    + f_equal. destruct s as [|ch s]; simpl in *; [lia|].
      apply IH; rewrite length_drop; lia.
  - destruct s as [|ch s]; [done|]. simpl in *. apply IH; lia.
Qed.

Lemma first_link_None (pats : list regex) (s : string) :
  Forall (λ pat, search pat s = None) pats → first_link pats s = None.
Proof.
  induction 1 as [|pat pats Hpat _ IH]; [done|].
  simpl. by rewrite Hpat.
Qed.

End ReFacts.

(** C9: a page whose decoded text has no form match and no direct-link
    match, and whose first [confirm=] is followed by the token [tok],
    yields the canonical URL built from [tok] and the resource identifier. *)
Theorem bare_confirm_token (unescape : string → string)
    (page file_id pre tok post : string) :
  unescape page = pre +:+ "confirm=" +:+ tok +:+ post →
  0 < String.length tok →
  Re.span Re.token_char (tok +:+ post) = String.length tok →
  Text.contains "confirm=" (pre +:+ "confirm") = false →
  Re.search Patterns.form_re (unescape page) = None →
  Forall (λ pat, Re.search pat (unescape page) = None) Patterns.patterns →
  _extract_download_url_from_html unescape page file_id
  = Some ("https://drive.google.com/uc?export=download&confirm=" +:+ tok +:+ "&id=" +:+ file_id).
Proof.
  intros Hs Hlen Hspan Hfirst Hform Hlinks.
  unfold _extract_download_url_from_html, form_url. cbv zeta.
  rewrite Hform, (ReFacts.first_link_None _ _ Hlinks).
  unfold confirm_url. rewrite Hs.
  rewrite (ReFacts.search_confirm_first pre (tok +:+ post) _ Hfirst
             (ReFacts.match_confirm_here tok post Hlen Hspan)).
  simpl. by rewrite TextFacts.app_nil_r.
Qed.

Lemma bare_confirm_token_witness :
  _extract_download_url_from_html Run.plain
    "<html><body>Quota check, confirm=XYZ123 to go on</body></html>" "FID"
  = Some "https://drive.google.com/uc?export=download&confirm=XYZ123&id=FID".
Proof.
  apply (bare_confirm_token Run.plain _ "FID" "<html><body>Quota check, " "XYZ123"
           " to go on</body></html>").
  - reflexivity.
  - simpl; lia.
  - reflexivity.
  - reflexivity.
  - reflexivity.
  - repeat constructor.
Defined.

(** The form strategy. *)

Module ParamFacts.

Lemma foldl_insert_lookup (pairs : list (string * string)) (acc : gmap string string)
    (k : string) :
  foldl (λ d kv, <[kv.1 := kv.2]> d) acc pairs !! k
  = match last_value k pairs with
    | Some v => Some v
    | None => acc !! k
    end.
Proof.
  revert acc; induction pairs as [|[n v] pairs IH]; intros acc; [done|].
  simpl. rewrite IH. destruct (last_value k pairs); [done|].
  destruct (decide (n = k)) as [->|Hne].
  - by rewrite lookup_insert_eq.
  - by rewrite lookup_insert_ne.
Qed.

(** [dict] keeps, for every key, the value of its last pair. *)
Lemma dict_lookup (pairs : list (string * string)) (k : string) :
  dict pairs !! k = last_value k pairs.
Proof.
  unfold dict. rewrite foldl_insert_lookup, lookup_empty.
  by destruct (last_value k pairs).
Qed.

Lemma setdefault_lookup (k v k' : string) (d : gmap string string) :
  setdefault k v d !! k'
  = match d !! k' with
    | Some x => Some x
    | None => if decide (k' = k) then Some v else None
    end.
Proof.
  unfold setdefault. destruct (d !! k) eqn:Hk.
  - destruct (d !! k') eqn:Hk'; [done|].
    destruct (decide (k' = k)) as [->|]; [congruence|done].
  - destruct (decide (k' = k)) as [->|Hne].
    + by rewrite lookup_insert_eq, Hk.
    + rewrite lookup_insert_ne by done. by destruct (d !! k').
Qed.

(** The comprehension of the source selects the parameters the
    specification describes. *)
Lemma select_params_spec (pairs : list (string * string)) (file_id : string) :
  select_params (setdefault "id" file_id (dict pairs)) = spec_params pairs file_id.
Proof.
  unfold select_params, spec_params. apply list_omap_ext, Forall2_same_length_lookup.
  split; [done|]. intros i k k' Hk Hk'. simplify_eq.
  rewrite setdefault_lookup, dict_lookup.
  destruct (last_value k pairs); [done|]. by destruct (decide (k = "id")).
Qed.


End ParamFacts.



(** The guard is a test on four characters, not on the scheme: an action
    with the scheme [httpx] passes it, and a relative action that starts
    with [http] does too. *)
Example form_action_prefix_only :
  _extract_download_url_from_html Run.plain (Run.form_page "httpx://example.com/download") "FID"
  = Some "httpx://example.com/download?id=FID&confirm=t&uuid=u+1" ∧
  _extract_download_url_from_html Run.plain (Run.form_page "httpdocs/download") "FID"
  = Some "httpdocs/download?id=FID&confirm=t&uuid=u+1".
Proof. by vm_compute. Qed.


(** ** The monad *)

Module MFacts.

Lemma bind_unfold {A B} (m : M A) (k : A → M B) (w : world) :
  (m ≫= k) w = match m w with
               | (w', Ok a) => k a w'
               | (w', Raise e) => (w', Raise e)
               end.
Proof. reflexivity. Qed.

Section Steps.
Context (R : relation world) `{!PreOrder R}.

Lemma steps_ret {A} (a : A) : steps R (ret a).
Proof. intros w. simpl. reflexivity. Qed.

Lemma steps_raise {A} (e : exn) : steps R (@raise A e).
Proof. intros w. simpl. reflexivity. Qed.

Lemma steps_get : steps R get.
Proof. intros w. simpl. reflexivity. Qed.

Lemma steps_modify (f : world → world) : (∀ w, R w (f w)) → steps R (modify f).
Proof. intros Hf w. apply Hf. Qed.

Lemma steps_bind {A B} (m : M A) (k : A → M B) :
  steps R m → (∀ a, steps R (k a)) → steps R (m ≫= k).
Proof.
  intros Hm Hk w. rewrite bind_unfold.
  specialize (Hm w). destruct (m w) as [w' [a|e]]; simpl in *; [|done].
  etrans; [exact Hm|apply Hk].
Qed.

Lemma steps_finally {A} (body : M A) (cleanup : world → world) :
  steps R body → (∀ w, R w (cleanup w)) → steps R (finally body cleanup).
Proof.
  intros Hb Hc w. unfold finally. specialize (Hb w).
  destruct (body w) as [w' r]; simpl in *. etrans; [exact Hb|apply Hc].
Qed.

End Steps.

Ltac use lem := apply lem; try apply _.

(** Walks through a computation built from the combinators above; [leaf]
    closes the primitive steps. *)
Ltac walk_with leaf :=
  repeat first
    [ leaf
    | use steps_ret | use steps_raise | use steps_get
    | use steps_bind; [|intros ?]
    | use steps_finally
    | match goal with
      | |- steps _ (match ?x with _ => _ end) => destruct x
      | |- steps _ (let _ := _ in _) => cbv zeta
      end ].

Ltac walk := walk_with fail.

Global Instance grew_by_0_preorder : PreOrder (grew_by 0).
Proof.
  split.
  - intros w. exists []. by rewrite app_nil_r.
  - intros x y z (l1 & H1 & Hl1) (l2 & H2 & Hl2).
    exists []. destruct l1, l2; simpl in *; try lia.
    rewrite app_nil_r in *. split; [congruence|lia].
Qed.

Global Instance same_dirs_preorder : PreOrder same_dirs.
Proof.
  split.
  - by intros w.
  - intros x y z [H1 H2] [H3 H4]. split; congruence.
Qed.

Lemma grew_bind {A B} (n1 n2 : nat) (m : M A) (k : A → M B) :
  steps (grew_by n1) m → (∀ a, steps (grew_by n2) (k a)) →
  steps (grew_by (n1 + n2)) (m ≫= k).
Proof.
  intros Hm Hk w. rewrite bind_unfold.
  destruct (Hm w) as (l1 & H1 & Hl1). destruct (m w) as [w' [a|e]]; simpl in *.
  - destruct (Hk a w') as (l2 & H2 & Hl2). exists (l1 ++ l2).
    rewrite H2, H1, length_app, app_assoc. split; [done|lia].
  - exists l1. split; [done|lia].
Qed.

Lemma grew_mono {A} (n n' : nat) (m : M A) :
  n ≤ n' → steps (grew_by n) m → steps (grew_by n') m.
Proof. intros Hn Hm w. destruct (Hm w) as (l & H & Hl). exists l. split; [done|lia]. Qed.

End MFacts.

(** ** The engine *)

Section EngineFacts.
Import MFacts.

Context (unescape decode : string → string).
Context (ZipFile : string → option (list member)).
Context (server : list string → option response).

Local Abbreviation extract_url := (_extract_download_url_from_html unescape).
Local Abbreviation download := (_download_gdrive_zip unescape decode ZipFile server).
Local Abbreviation extract_csvs := (_extract_csvs ZipFile).
Local Abbreviation ensure := (ensure_dataset unescape decode ZipFile server).

(** *** The request log *)

Lemma open_url_grew (url : string) : steps (grew_by 1) (open_url server url).
Proof.
  intros w. unfold open_url. cbv zeta.
  destruct (server _); exists [url]; by simpl.
Qed.

Lemma write_zip_grew (data : string) : steps (grew_by 0) (write_zip data).
Proof. use steps_modify. intros w. exists []. by rewrite app_nil_r. Qed.

Lemma validate_grew : steps (grew_by 0) (validate ZipFile).
Proof. unfold validate. walk. Qed.

Lemma download_grew (file_id : string) : steps (grew_by 3) (download file_id).
Proof.
  unfold _download_gdrive_zip. cbv zeta.
  apply (grew_bind 1 2); [apply open_url_grew|]. intros resp.
  destruct (classify _ _).
  { apply (grew_mono 0); [lia|apply write_zip_grew]. }
  destruct (falsy _).
  { apply (grew_mono 0); [lia|use steps_raise]. }
  apply (grew_bind 1 1); [apply open_url_grew|]. intros resp2.
  apply (grew_bind 1 0); [|intros _; apply validate_grew].
  destruct (negb _); [|apply (grew_mono 0); [lia|apply write_zip_grew]].
  destruct (falsy _).
  { apply (grew_mono 0); [lia|use steps_raise]. }
  apply (grew_bind 1 0); [apply open_url_grew|]. intros resp3. apply write_zip_grew.
Qed.

Lemma modify_grew (f : world → world) :
  (∀ w, requests (f w) = requests w) → steps (grew_by 0) (modify f).
Proof. intros Hf. use steps_modify. intros w. exists []. by rewrite app_nil_r. Qed.

Lemma copy2_grew (f : list string * node) : steps (grew_by 0) (copy2 f).
Proof. unfold copy2. walk_with ltac:(by apply modify_grew). Qed.

Lemma copy_all_grew (csvs : list (list string * node)) :
  steps (grew_by 0) (copy_all csvs).
Proof.
  induction csvs as [|f csvs IH]; simpl; [use steps_ret|].
  use steps_bind; [apply copy2_grew|by intros _].
Qed.

Lemma extract_csvs_grew : steps (grew_by 0) extract_csvs.
Proof.
  unfold _extract_csvs, mkdtemp, unpack.
  walk_with ltac:(first [apply copy_all_grew | by apply modify_grew]).
Qed.

Lemma ensure_grew (file_id : string) (keep_zip : bool) :
  steps (grew_by 3) (ensure file_id keep_zip).
Proof.
  unfold ensure_dataset.
  apply (grew_bind 0 3); [use steps_get|]. intros w0.
  apply (grew_bind 0 3);
    [destruct (bool_decide _); [by apply modify_grew|use steps_ret]|]. intros _.
  apply (grew_bind 0 3); [use steps_get|]. intros w1.
  apply (grew_bind 0 3); [destruct (_ && _); [by apply modify_grew|use steps_ret]|]. intros _.
  apply (grew_bind 3 0); [apply download_grew|]. intros _.
  use steps_bind; [apply extract_csvs_grew|]. intros _.
  walk_with ltac:(by apply modify_grew).
Qed.

(** C1: one call of [_download_gdrive_zip], and so one call of
    [ensure_dataset], adds at most three URLs to the request log, whatever
    the service answers. *)
Theorem at_most_three_requests (file_id : string) (keep_zip : bool) (w : world) :
  (∃ urls, requests (download file_id w).1 = requests w ++ urls ∧ length urls ≤ 3) ∧
  (∃ urls, requests (ensure file_id keep_zip w).1 = requests w ++ urls ∧ length urls ≤ 3).
Proof. split; [apply download_grew|apply ensure_grew]. Qed.

(** *** The directories *)

Lemma download_same_dirs (file_id : string) : steps same_dirs (download file_id).
Proof.
  unfold _download_gdrive_zip, validate, write_zip.
  walk_with ltac:(first [ by use steps_modify
                        | by intros w; unfold open_url; cbv zeta; destruct (server _) ]).
Qed.

Lemma open_url_unfold (url : string) (w : world) :
  open_url server url w =
  match server (requests w ++ [url]) with
  | Some resp => (requested url w, Ok resp)
  | None => (requested url w, Raise URLError)
  end.
Proof. reflexivity. Qed.

Lemma validate_written (data : string) (w : world) :
  validate ZipFile (wrote_archive data w) =
  (wrote_archive data w,
   match ZipFile data with
   | Some _ => Ok tt
   | None => Raise (RuntimeError invalid_zip_msg)
   end).
Proof.
  unfold validate. rewrite bind_unfold. unfold get. cbv beta iota.
  change (out_zip (wrote_archive data w)) with (Some data). cbv iota.
  by destruct (ZipFile data).
Qed.

(** The paths of [_download_gdrive_zip], one by one. *)
Lemma download_eq (file_id : string) (w : world) :
  download file_id w =
  let w1 := requested (initial_url file_id) w in
  match server (requests w1) with
  | None => (w1, Raise URLError)
  | Some r1 =>
      if classify r1 (Text.take 4 (body r1)) then (wrote_archive (body r1) w1, Ok tt)
      else
        let url1 := extract_url (decode (body r1)) file_id in
        if falsy url1 then (w1, Raise (RuntimeError no_url_msg))
        else
          let w2 := requested (default "" url1) w1 in
          match server (requests w2) with
          | None => (w2, Raise URLError)
          | Some r2 =>
              if classify r2 (Text.take 4 (body r2))
              then validate ZipFile (wrote_archive (body r2) w2)
              else
                let url2 := extract_url (decode (body r2)) file_id in
                if falsy url2 then (w2, Raise (RuntimeError still_html_msg))
                else
                  let w3 := requested (default "" url2) w2 in
                  match server (requests w3) with
                  | None => (w3, Raise URLError)
                  | Some r3 => validate ZipFile (wrote_archive (body r3) w3)
                  end
          end
  end.
Proof.
  unfold _download_gdrive_zip. cbv zeta.
  rewrite bind_unfold, open_url_unfold.
  change (requests (requested ?u ?w)) with (requests w ++ [u]).
  destruct (server (requests w ++ _)) as [r1|]; [|done]. cbv beta iota.
  rewrite TextFacts.take_drop.
  destruct (classify r1 _); [done|].
  destruct (falsy _); [done|].
  rewrite bind_unfold, open_url_unfold.
  destruct (server _) as [r2|]; [|done]. cbv beta iota.
  rewrite bind_unfold, TextFacts.take_drop.
  destruct (classify r2 _); cbn [negb]; cbv beta iota; [done|].
  destruct (falsy _); [done|].
  rewrite bind_unfold, open_url_unfold.
  by destruct (server _) as [r3|].
Qed.

(** [ensure_dataset] is the download from the refreshed world, then the
    extraction, then the removal of the archive that is not kept. *)
Lemma ensure_dataset_eq (file_id : string) (keep_zip : bool) (w : world) :
  ensure file_id keep_zip w =
  match download file_id (refreshed keep_zip w) with
  | (w1, Raise e) => (w1, Raise e)
  | (w1, Ok _) =>
      match extract_csvs w1 with
      | (w2, Raise e) => (w2, Raise e)
      | (w2, Ok _) =>
          (if negb keep_zip && bool_decide (is_Some (out_zip w2))
           then unlinked_archive w2 else w2, Ok tt)
      end
  end.
Proof.
  unfold ensure_dataset, refreshed.
  repeat (rewrite bind_unfold; unfold modify, get, ret; cbv beta iota).
  destruct (bool_decide (is_Some (dataset_dir w))); cbv zeta;
    repeat (rewrite bind_unfold; unfold modify, get, ret; cbv beta iota);
    (destruct (bool_decide (is_Some (out_zip _)) && negb keep_zip);
     repeat (rewrite bind_unfold; cbv beta iota);
     (destruct (download file_id _) as [w1 [[]|e]]; [|done]);
     repeat (rewrite bind_unfold; cbv beta iota);
     (destruct (extract_csvs w1) as [w2 [[]|e]]; [|done]);
     repeat (rewrite bind_unfold; cbv beta iota);
     by destruct (negb keep_zip && bool_decide (is_Some (out_zip w2)))).
Qed.

(** The paths of [_extract_csvs], one by one. *)
Lemma extract_csvs_eq (w : world) :
  extract_csvs w =
  match out_zip w with
  | None => (removed_scratch (made_scratch w), Raise FileNotFoundError)
  | Some data =>
      match ZipFile data with
      | None => (removed_scratch (made_scratch w), Raise BadZipFile)
      | Some zf =>
          match Tree.extractall zf [] with
          | (cs, Some e) => (removed_scratch (unpacked cs (made_scratch w)), Raise e)
          | (cs, None) =>
              match find_csvs cs with
              | [] =>
                  (removed_scratch (unpacked cs (made_scratch w)),
                   Raise (RuntimeError no_csv_msg))
              | f :: csvs =>
                  let '(w', r) :=
                    copy_all (f :: csvs)
                      (recreated_destination (unpacked cs (made_scratch w))) in
                  (removed_scratch w', r)
              end
          end
      end
  end.
Proof.
  unfold _extract_csvs, mkdtemp, unpack, finally.
  repeat (rewrite bind_unfold; unfold modify, get, ret, raise; cbv beta iota).
  change (out_zip (made_scratch w)) with (out_zip w).
  destruct (out_zip w) as [data|]; [|done].
  destruct (ZipFile data) as [zf|]; [|done].
  destruct (Tree.extractall zf []) as [cs [e|]];
    repeat (rewrite bind_unfold; unfold modify, get, ret, raise; cbv beta iota); [done|].
  change (tmp_dir (unpacked cs (made_scratch w))) with (Some (Dir cs)). cbv beta iota.
  destruct (find_csvs cs) as [|f csvs]; [done|].
  repeat (rewrite bind_unfold; cbv beta iota).
  unfold recreated_destination.
  by destruct (bool_decide (is_Some (dataset_dir _)));
    repeat (rewrite bind_unfold; cbv beta iota).
Qed.

Lemma refreshed_dirs (keep_zip : bool) (w : world) :
  dataset_dir (refreshed keep_zip w) = None ∧
  tmp_dir (refreshed keep_zip w) = tmp_dir w ∧
  requests (refreshed keep_zip w) = requests w.
Proof.
  unfold refreshed. cbv zeta.
  destruct (dataset_dir w) as [d|] eqn:Hd; simpl; by destruct (_ && _).
Qed.

Lemma copy2_eq (f : list string * node) (w : world) :
  copy2 f w =
  match f.2 with
  | Dir _ => (w, Raise IsADirectoryError)
  | File data =>
      match dataset_dir w with
      | None => (w, Raise FileNotFoundError)
      | Some d => (copied (Tree.name f.1) data d w, Ok tt)
      end
  end.
Proof.
  unfold copy2. destruct f.2; [|done].
  rewrite bind_unfold. unfold get. cbv beta iota. by destruct (dataset_dir w).
Qed.

(** A copy loop that ends normally copied files only, and the destination
    then holds their names on top of what it held. *)
Lemma copy_all_ok (csvs : list (list string * node)) (w w' : world)
    (d : gmap string string) :
  dataset_dir w = Some d →
  copy_all csvs w = (w', Ok tt) →
  Forall is_file csvs ∧
  ∃ d', dataset_dir w' = Some d' ∧
        dom d' = dom d ∪ list_to_set (Tree.name ∘ fst <$> csvs).
Proof.
  revert w d; induction csvs as [|f csvs IH]; intros w d Hd.
  - intros [= <-]. split; [done|]. exists d. split; [done|]. set_solver.
  - simpl. rewrite bind_unfold, copy2_eq, Hd.
    destruct f as [path [data|sub]] eqn:Hf; simpl; [|done].
    intros Hrest. eapply IH in Hrest as (Hfiles & d' & Hd' & Hdom); [|done].
    split; [by constructor|]. exists d'. split; [done|].
    rewrite Hdom, dom_insert_L. set_solver.
Qed.


(** The search of the source is the two-tier search of the specification. *)
Lemma find_csvs_two_tier (cs : list (string * node)) : find_csvs cs = two_tier cs.
Proof.
  unfold find_csvs, two_tier, tier1, tier2. cbv zeta.
  destruct (Tree.assoc "dataset" cs) as [[data|sub]|].
  - by destruct (Tree.rglob is_csv [] (Dir cs)).
  - by destruct (Tree.rglob is_csv ["dataset"] (Dir sub)).
  - by destruct (Tree.rglob is_csv [] (Dir cs)).
Qed.

(** C5: after a run that ends normally the destination holds exactly the
    base names of the files the two-tier search finds in the unpacked
    archive. *)
Theorem destination_holds_matched_names (file_id : string) (keep_zip : bool)
    (w w' : world) :
  ensure file_id keep_zip w = (w', Ok tt) →
  ∃ w1 data zf cs d,
    download file_id (refreshed keep_zip w) = (w1, Ok tt) ∧
    out_zip w1 = Some data ∧ ZipFile data = Some zf ∧
    Tree.extractall zf [] = (cs, None) ∧
    find_csvs cs = two_tier cs ∧
    Forall is_file (two_tier cs) ∧
    dataset_dir w' = Some d ∧
    dom d = list_to_set (Tree.name ∘ fst <$> two_tier cs).
Proof.
  rewrite ensure_dataset_eq.
  destruct (download file_id _) as [w1 [[]|e]] eqn:Hdl; [|done].
  rewrite extract_csvs_eq.
  destruct (out_zip w1) as [data|] eqn:Hzip; [|done].
  destruct (ZipFile data) as [zf|] eqn:Hzf; [|done].
  destruct (Tree.extractall zf []) as [cs [e|]] eqn:Hcs; [done|].
  pose proof (find_csvs_two_tier cs) as Htier.
  destruct (find_csvs cs) as [|f csvs] eqn:Hfind; [done|].
  destruct (copy_all _ _) as [w2 [[]|e]] eqn:Hcopy; [|done].
  intros [= <-].
  eapply copy_all_ok in Hcopy as (Hfiles & d & Hd & Hdom); [|done].
  exists w1, data, zf, cs, d. rewrite <-Htier.
  repeat split; try done.
  - by destruct (_ && _).
  - rewrite Hdom, dom_empty_L. set_solver.
Qed.



(** *** The journal *)

Global Instance journal_grew_preorder : PreOrder journal_grew.
Proof.
  split.
  - intros w. exists []. by rewrite app_nil_r.
  - intros x y z [l1 H1] [l2 H2]. exists (l1 ++ l2). by rewrite H2, H1, app_assoc.
Qed.

(** The first entry a download adds to the journal is its initial request. *)
Lemma download_journal (file_id : string) (w : world) :
  ∃ rest, journal (download file_id w).1 = journal w ++ Requested (initial_url file_id) :: rest.
Proof.
  rewrite download_eq. cbv zeta.
  destruct (server _) as [r1|];
    [ destruct (classify _ _);
      [ | destruct (falsy _);
          [ | destruct (server _) as [r2|];
              [ destruct (classify _ _);
                [ | destruct (falsy _); [ | destruct (server _) as [r3|] ] ]
              | ] ] ]
    | ];
    rewrite ?validate_written; eexists; cbn; rewrite <-?app_assoc; reflexivity.
Qed.

Lemma modify_journal (f : world → world) :
  (∀ w, ∃ evs, journal (f w) = journal w ++ evs) → steps journal_grew (modify f).
Proof. intros Hf. use steps_modify. exact Hf. Qed.

Lemma copy2_journal (f : list string * node) : steps journal_grew (copy2 f).
Proof.
  unfold copy2.
  walk_with ltac:(by apply modify_journal; intros ?; eexists).
Qed.

Lemma copy_all_journal (csvs : list (list string * node)) :
  steps journal_grew (copy_all csvs).
Proof.
  induction csvs as [|f csvs IH]; simpl; [use steps_ret|].
  use steps_bind; [apply copy2_journal|by intros _].
Qed.

Lemma extract_csvs_journal : steps journal_grew extract_csvs.
Proof.
  unfold _extract_csvs, mkdtemp, unpack.
  walk_with ltac:(first
    [ apply copy_all_journal
    | by apply modify_journal; intros ?; eexists
    | by intros ?; eexists ]).
Qed.

Lemma refreshed_journal (keep_zip : bool) (w : world) :
  journal (refreshed keep_zip w) =
  journal w ++
  (if bool_decide (is_Some (dataset_dir w)) then [RemovedDestination] else []) ++
  (if bool_decide (is_Some (out_zip w)) && negb keep_zip then [UnlinkedArchive] else []).
Proof.
  unfold refreshed. cbv zeta.
  destruct (bool_decide (is_Some (dataset_dir w)));
    [change (out_zip (removed_destination w)) with (out_zip w)|];
    destruct (bool_decide (is_Some (out_zip w)) && negb keep_zip); cbn;
    by rewrite <-?app_assoc, ?app_nil_r.
Qed.

(** What [ensure_dataset] does first: it removes the destination that is
    there, unlinks the archive that is there and not kept, and only then
    issues the initial request. *)
Lemma ensure_journal (file_id : string) (keep_zip : bool) (w : world) :
  ∃ rest,
    journal (ensure file_id keep_zip w).1 =
    journal w ++
    (if bool_decide (is_Some (dataset_dir w)) then [RemovedDestination] else []) ++
    (if bool_decide (is_Some (out_zip w)) && negb keep_zip then [UnlinkedArchive] else []) ++
    Requested (initial_url file_id) :: rest.
Proof.
  assert (∃ rest, journal (ensure file_id keep_zip w).1 =
                  journal (refreshed keep_zip w) ++ Requested (initial_url file_id) :: rest)
    as [rest Hrest].
  { rewrite ensure_dataset_eq.
    destruct (download_journal file_id (refreshed keep_zip w)) as [r1 Hr1].
    destruct (download file_id _) as [w1 [[]|e1]]; simpl in Hr1; [|by exists r1].
    destruct (extract_csvs_journal w1) as [r2 Hr2].
    destruct (extract_csvs w1) as [w2 [[]|e2]]; simpl in Hr2.
    - destruct (_ && _); cbn.
      + exists (r1 ++ r2 ++ [UnlinkedArchive]).
        by rewrite Hr2, Hr1, <-!app_assoc.
      + exists (r1 ++ r2). by rewrite Hr2, Hr1, <-!app_assoc.
    - exists (r1 ++ r2). cbn. by rewrite Hr2, Hr1, <-!app_assoc. }
  exists rest. by rewrite Hrest, refreshed_journal, <-!app_assoc.
Qed.


Lemma extract_csvs_same_zip (w : world) : out_zip (extract_csvs w).1 = out_zip w.
Proof.
  assert (∀ csvs v v' r, copy_all csvs v = (v', r) → out_zip v' = out_zip v) as Hcopy.
  { induction csvs as [|f csvs IH]; intros v v' r; [by intros [= <- _]|].
    simpl. rewrite bind_unfold, copy2_eq.
    destruct f.2; [destruct (dataset_dir v)|]; try by intros [= <- _].
    by intros ->%IH. }
  rewrite extract_csvs_eq.
  destruct (out_zip w) as [data|] eqn:Hzip; [|done].
  destruct (ZipFile data) as [zf|]; [|done].
  destruct (Tree.extractall zf []) as [cs [e|]]; [done|].
  destruct (find_csvs cs) as [|f csvs]; [done|].
  destruct (copy_all _ _) as [w2 r] eqn:Hrun.
  apply Hcopy in Hrun. cbn in *. rewrite Hrun. unfold recreated_destination.
  by destruct (bool_decide _).
Qed.

(** C4, as the source has it.  The scratch directory is gone after every
    path of [_extract_csvs] and of [ensure_dataset].  The archive that is
    not kept is gone after a run that ends normally; after a run that
    raises, the archive file is what the download step left, so an
    archive that was written stays.  An archive that is there when the
    run starts and is not kept is unlinked before the initial request. *)
Theorem scratch_always_removed (file_id : string) (keep_zip : bool) (w : world) :
  tmp_dir w = None →
  (∀ w0, tmp_dir (extract_csvs w0).1 = None) ∧
  tmp_dir (ensure file_id keep_zip w).1 = None ∧
  ((ensure file_id keep_zip w).2 = Ok tt → keep_zip = false →
   out_zip (ensure file_id keep_zip w).1 = None) ∧
  (∀ w1 r data e,
     download file_id (refreshed keep_zip w) = (w1, r) → out_zip w1 = Some data →
     (ensure file_id keep_zip w).2 = Raise e →
     out_zip (ensure file_id keep_zip w).1 = Some data) ∧
  (keep_zip = false → is_Some (out_zip w) →
   ∃ rest,
     journal (ensure file_id keep_zip w).1 =
     journal w ++
     (if bool_decide (is_Some (dataset_dir w)) then [RemovedDestination] else []) ++
     UnlinkedArchive :: Requested (initial_url file_id) :: rest).
Proof.
  intros Htmp.
  assert (∀ w0, tmp_dir (extract_csvs w0).1 = None) as Hscratch.
  { intros w0. unfold _extract_csvs. rewrite bind_unfold.
    unfold mkdtemp, modify, finally. cbv beta iota.
    by destruct (_ ≫= _) as [w1 r]. }
  split; [done|]. split; [|split; [|split]].
  - rewrite ensure_dataset_eq.
    destruct (download file_id _) as [w1 [[]|e1]] eqn:Hdl.
    + specialize (Hscratch w1).
      destruct (extract_csvs w1) as [w2 [[]|e2]]; simpl in *; [|done].
      by destruct (_ && _).
    + simpl.
      destruct (download_same_dirs file_id (refreshed keep_zip w)) as [_ Ht].
      rewrite Hdl in Ht. simpl in Ht. rewrite Ht, <-Htmp. apply refreshed_dirs.
  - rewrite ensure_dataset_eq.
    destruct (download file_id _) as [w1 [[]|e1]]; [|done].
    destruct (extract_csvs w1) as [w2 [[]|e2]]; [|done].
    intros _ ->. simpl. case_bool_decide as Hz; simpl; [done|].
    destruct (out_zip w2); [|done]. exfalso. eauto.
  - intros w1 r data e Hdl Hzip. rewrite ensure_dataset_eq, Hdl.
    destruct r as [[]|e1]; [|by intros _].
    pose proof (extract_csvs_same_zip w1) as Hsame.
    destruct (extract_csvs w1) as [w2 [[]|e2]]; [done|].
    intros _. simpl in *. by rewrite Hsame.
  - intros -> Hzip.
    destruct (ensure_journal file_id false w) as [rest Hrest].
    exists rest. rewrite Hrest. by rewrite (bool_decide_eq_true_2 _ Hzip).
Qed.

(** *** The third response *)


Lemma open_url_eq (url : string) (w : world) (resp : response) :
  server (requests w ++ [url]) = Some resp →
  open_url server url w = (requested url w, Ok resp).
Proof. intros H. unfold open_url. cbv zeta. simpl. by rewrite H. Qed.


End EngineFacts.

(** ** Runs against a scripted service *)


(** The other half on a run: the second page yields no URL, and the run
    stops after two requests with nothing written. *)
Example second_page_without_url :
  Run.fetch [ Run.html "<html>Too large to scan, confirm=abc</html>";
              Run.html "<html>Quota exceeded</html>" ] Run.fresh =
  ({| journal := [ Requested "https://drive.google.com/uc?export=download&id=FID";
                   Requested "https://drive.google.com/uc?export=download&confirm=abc&id=FID" ];
      requests := [ "https://drive.google.com/uc?export=download&id=FID";
                    "https://drive.google.com/uc?export=download&confirm=abc&id=FID" ];
      out_zip := None; dataset_dir := None; tmp_dir := None |},
   Raise (RuntimeError still_html_msg)).
Proof. by vm_compute. Qed.


(** C3 fails on the source in two ways.  A first response that is
    classified as binary is written and [_download_gdrive_zip] returns
    before the validation block, so a body that is no archive passes the
    download and the run ends in the [BadZipFile] that [_extract_csvs]
    lets through, after the scratch directory was made.  And when the
    block does run, the entry that [testzip] reports is ignored, so an
    archive with a failing checksum passes it too. *)
Theorem invalid_archive_passes_validation :
  (Run.ZipFile "<html>Quota exceeded</html>" = None ∧
   Run.fetch [Run.octets "<html>Quota exceeded</html>"] Run.fresh
   = (wrote_archive "<html>Quota exceeded</html>"
        (requested (initial_url "FID") Run.fresh), Ok tt) ∧
   (Run.run [Run.octets "<html>Quota exceeded</html>"] false Run.fresh).2 = Raise BadZipFile ∧
   journal (Run.run [Run.octets "<html>Quota exceeded</html>"] false Run.fresh).1
   = [Requested (initial_url "FID"); WroteArchive; MadeScratch; RemovedScratch] ∧
   kind_of BadZipFile ≠ InvalidArchive) ∧
  (testzip (Run.entries false) = Some ["dataset"; "b.csv"] ∧
   validate Run.ZipFile (set_out_zip (Some Run.damaged) Run.fresh)
   = (set_out_zip (Some Run.damaged) Run.fresh, Ok tt) ∧
   (Run.fetch [Run.html "<html>confirm=abc</html>"; Run.octets Run.damaged] Run.fresh).2
   = Ok tt ∧
   (Run.run [Run.html "<html>confirm=abc</html>"; Run.octets Run.damaged] false Run.fresh).2
   = Raise BadZipFile).
Proof. by vm_compute. Qed.

Lemma scratch_always_removed_witness :
  (∀ w0, tmp_dir (_extract_csvs Run.ZipFile w0).1 = None) ∧
  tmp_dir (Run.run [Run.octets Run.archive] false (Run.downloaded "old")).1 = None ∧
  ((Run.run [Run.octets Run.archive] false (Run.downloaded "old")).2 = Ok tt → false = false →
   out_zip (Run.run [Run.octets Run.archive] false (Run.downloaded "old")).1 = None) ∧
  (∀ w1 r data e,
     Run.fetch [Run.octets Run.archive] (refreshed false (Run.downloaded "old")) = (w1, r) →
     out_zip w1 = Some data →
     (Run.run [Run.octets Run.archive] false (Run.downloaded "old")).2 = Raise e →
     out_zip (Run.run [Run.octets Run.archive] false (Run.downloaded "old")).1 = Some data) ∧
  (false = false → is_Some (out_zip (Run.downloaded "old")) →
   ∃ rest,
     journal (Run.run [Run.octets Run.archive] false (Run.downloaded "old")).1 =
     journal (Run.downloaded "old") ++
     (if bool_decide (is_Some (dataset_dir (Run.downloaded "old")))
      then [RemovedDestination] else []) ++
     UnlinkedArchive :: Requested (initial_url "FID") :: rest).
Proof.
  apply (scratch_always_removed Run.plain Run.plain Run.ZipFile
           (Run.scripted [Run.octets Run.archive]) "FID" false (Run.downloaded "old")).
  reflexivity.
Defined.

(** C4 as stated fails: the caller did not ask to keep the archive, the
    run fails in the validator, and the archive file is still there. *)
Lemma archive_left_after_failed_run :
  (Run.run [Run.html "<html>confirm=abc</html>"; Run.octets "<html>Quota exceeded</html>"]
     false Run.fresh).2
  = Raise (RuntimeError invalid_zip_msg) ∧
  out_zip (Run.run [Run.html "<html>confirm=abc</html>"; Run.octets "<html>Quota exceeded</html>"]
             false Run.fresh).1
  = Some "<html>Quota exceeded</html>".
Proof. by vm_compute. Qed.

(** The next run on what that failed run left: the leftover archive is
    unlinked first, and a run that then fails before a response is saved
    leaves no archive. *)
Example leftover_archive_unlinked_first :
  journal (Run.run [Run.octets Run.archive] false
             (Run.downloaded "<html>Quota exceeded</html>")).1
  = [ UnlinkedArchive; Requested (initial_url "FID"); WroteArchive; MadeScratch; Unpacked;
      MadeDestination; Copied "a.csv"; Copied "b.csv"; RemovedScratch; UnlinkedArchive ] ∧
  Run.run [Run.html "<html>Quota exceeded</html>"] false
    (Run.downloaded "<html>Quota exceeded</html>")
  = ({| journal := [UnlinkedArchive; Requested (initial_url "FID")];
        requests := [initial_url "FID"];
        out_zip := None; dataset_dir := None; tmp_dir := None |},
     Raise (RuntimeError no_url_msg)).
Proof. by vm_compute. Qed.

Lemma destination_holds_matched_names_witness :
  ∃ w1 data zf cs d,
    Run.fetch [Run.octets Run.archive] (refreshed false Run.stale) = (w1, Ok tt) ∧
    out_zip w1 = Some data ∧ Run.ZipFile data = Some zf ∧
    Tree.extractall zf [] = (cs, None) ∧
    find_csvs cs = two_tier cs ∧
    Forall is_file (two_tier cs) ∧
    dataset_dir (Run.run [Run.octets Run.archive] false Run.stale).1 = Some d ∧
    dom d = list_to_set (Tree.name ∘ fst <$> two_tier cs).
Proof.
  apply (destination_holds_matched_names Run.plain Run.plain Run.ZipFile
           (Run.scripted [Run.octets Run.archive]) "FID" false Run.stale).
  by vm_compute.
Defined.

(** The example of the specification: an archive with [dataset/a.csv],
    [dataset/b.csv] and [readme.txt] gives a destination with exactly
    [a.csv] and [b.csv]; the stale [old.csv] is gone. *)
Example destination_of_sample_archive :
  dataset_dir (Run.run [Run.octets Run.archive] false Run.stale).1
  = Some {[ "a.csv" := "a,1"; "b.csv" := "b,2" ]}.
Proof. by vm_compute. Qed.




(** On that run the journal is: the removal, then the three requests. *)
Example stale_destination_removed_first :
  journal (Run.run Run.three_pages false Run.stale).1
  = [ RemovedDestination;
      Requested "https://drive.google.com/uc?export=download&id=FID";
      Requested "https://drive.google.com/uc?export=download&confirm=abc&id=FID";
      Requested "https://drive.google.com/uc?export=download&confirm=def&id=FID";
      WroteArchive ].
Proof. by vm_compute. Qed.

(** * Further properties of the source *)

(** ** [_is_zip_response] *)

Module ClassifierFacts.

Lemma lower_char_idemp (c : ascii) : Text.lower_char (Text.lower_char c) = Text.lower_char c.
Proof. by destruct c as [[] [] [] [] [] [] [] []]. Qed.

Lemma lower_idemp (s : string) : Text.lower (Text.lower s) = Text.lower s.
Proof. induction s as [|c s IH]; [done|]. simpl. by rewrite lower_char_idemp, IH. Qed.

Lemma short_body_no_magic (first_bytes : string) :
  String.length first_bytes < 4 → Text.startswith first_bytes zip_magic = false.
Proof.
  destruct first_bytes as [|a [|b [|c [|d s]]]]; simpl; try lia; intros _;
    unfold Text.startswith, zip_magic; simpl; repeat case_decide; try done;
    apply bool_decide_eq_false; by intros [? ?].
Qed.

End ClassifierFacts.

(** Without a Content-Type header the signature alone decides: no
    Content-Disposition makes the response binary. *)
Theorem no_content_type_only_magic (content_disp : option string) (first_bytes : string) :
  _is_zip_response None content_disp first_bytes = Text.startswith first_bytes zip_magic.
Proof. unfold _is_zip_response. simpl. by destruct (Text.startswith _ _). Qed.

(** A body of fewer than four bytes, the empty body included, is classified
    by the headers alone. *)
Theorem short_body_decided_by_headers (content_type content_disp : option string)
    (first_bytes : string) :
  String.length first_bytes < 4 →
  _is_zip_response content_type content_disp first_bytes
  = Text.contains "application/zip" (Text.lower (or_empty content_type)) ||
    (Text.contains "application/octet-stream" (Text.lower (or_empty content_type)) &&
     Text.contains "attachment" (Text.lower (or_empty content_disp))).
Proof.
  intros Hshort. unfold _is_zip_response. cbv zeta.
  rewrite (ClassifierFacts.short_body_no_magic _ Hshort).
  destruct (Text.contains "application/zip" _); [done|].
  by destruct (_ && _).
Qed.

Lemma short_body_decided_by_headers_witness :
  _is_zip_response (Some "Application/Octet-Stream") (Some "ATTACHMENT; filename=x") "PK"
  = Text.contains "application/zip" (Text.lower (or_empty (Some "Application/Octet-Stream"))) ||
    (Text.contains "application/octet-stream"
       (Text.lower (or_empty (Some "Application/Octet-Stream"))) &&
     Text.contains "attachment" (Text.lower (or_empty (Some "ATTACHMENT; filename=x")))).
Proof.
  apply (short_body_decided_by_headers (Some "Application/Octet-Stream")
           (Some "ATTACHMENT; filename=x") "PK").
  simpl; lia.
Defined.

(** The letter case of the two headers does not matter. *)
Theorem header_case_ignored (content_type content_disp first_bytes : string) :
  _is_zip_response (Some content_type) (Some content_disp) first_bytes
  = _is_zip_response (Some (Text.lower content_type)) (Some (Text.lower content_disp))
      first_bytes.
Proof. unfold _is_zip_response. simpl. by rewrite !ClassifierFacts.lower_idemp. Qed.

(** ** [_extract_download_url_from_html] *)

Module ExtractorFacts.
Import Re Patterns.

Lemma startswith_true (s p : string) :
  Text.startswith s p = true ↔ ∃ r, s = p +:+ r.
Proof.
  unfold Text.startswith. rewrite bool_decide_eq_true. split.
  - intros [r Hr]. exists r. by apply TextFacts.strip_prefix_Some.
  - intros [r ->]. rewrite TextFacts.strip_prefix_app. eauto.
Qed.

Lemma startswith_app_l (a b p : string) :
  Text.startswith a p = true → Text.startswith (a +:+ b) p = true.
Proof.
  rewrite !startswith_true. intros [r ->]. exists (r +:+ b).
  by rewrite TextFacts.app_assoc.
Qed.

Lemma startswith_shorter (s p q : string) :
  Text.startswith s (p +:+ q) = true → Text.startswith s p = true.
Proof.
  rewrite !startswith_true. intros [r ->]. exists (q +:+ r).
  by rewrite TextFacts.app_assoc.
Qed.

Lemma contains_shorter (s p q : string) :
  Text.contains p s = false → Text.contains (p +:+ q) s = false.
Proof.
  induction s as [|c s IH]; simpl; intros [Hh Ht]%orb_false_iff;
    apply orb_false_iff; (split; [|by auto]);
    destruct (Text.startswith _ (p +:+ q)) eqn:E; try done;
    apply startswith_shorter in E; congruence.
Qed.

(** A pattern that begins with a literal finds nothing in a text that
    does not contain the literal. *)
Lemma search_without_literal (g : option nat) (l : string) (r : regex) (s : string) :
  Text.contains l s = false → search ((g, Lit l) :: r) s = None.
Proof.
  assert (∀ t, Text.startswith t l = false → match_here ((g, Lit l) :: r) t = None) as Hhere.
  { intros t Ht. simpl. destruct (Text.strip_prefix l t) eqn:E; [|done].
    apply bool_decide_eq_false in Ht. destruct Ht. eauto. }
  induction s as [|c s IH]; simpl Text.contains; intros [Hh Ht]%orb_false_iff;
    rewrite ReFacts.search_unfold, Hhere by done; [done|by apply IH].
Qed.

(** Where [search] finds a match, the match starts at a suffix of the text. *)
Lemma search_Some (r : regex) (s : string) (m : segments) :
  search r s = Some m → ∃ pre s', s = pre +:+ s' ∧ match_here r s' = Some m.
Proof.
  induction s as [|c s IH]; rewrite ReFacts.search_unfold;
    destruct (match_here r _) as [m'|] eqn:Hm.
  - intros [= ->]. by exists "", "".
  - done.
  - intros [= ->]. by exists "", (String c s).
  - intros (pre & s' & -> & Hs')%IH. by exists (String c pre), s'.
Qed.

(** A match has one segment for each item of the pattern, in the item's
    group, and a literal item consumed its literal. *)
Lemma match_here_shape (r : regex) (s : string) (m : segments) :
  match_here r s = Some m →
  Forall2 (λ item seg, seg.1 = item.1 ∧
             match item.2 with Lit l => seg.2 = l | Many _ _ => True end) r m.
Proof.
  revert s m; induction r as [|[g a] r IH]; intros s m; simpl.
  - intros [= <-]. constructor.
  - destruct a as [l|min cls].
    + destruct (Text.strip_prefix l s) as [rest|]; [|done].
      destruct (match_here r rest) as [m'|] eqn:Hm'; [|done].
      intros [= <-]. constructor; [done|by eapply IH].
    + destruct (decide (min ≤ span cls s)); [|done].
      intros (j & m' & -> & Hm')%ReFacts.greedy_Some.
      constructor; [done|by eapply IH].
Qed.

(** The text a repetition consumed: at least [min] characters, all of
    them in the class. *)
Lemma greedy_bounds (k : string → option segments) (g : option nat) (min : nat)
    (s : string) (n : nat) (m : segments) :
  min ≤ n → greedy k g min s n = Some m →
  ∃ j m', min ≤ j ≤ n ∧ m = (g, Text.take j s) :: m' ∧ k (Text.drop j s) = Some m'.
Proof.
  induction n as [|n IH]; cbn [greedy]; intros Hmin.
  - destruct (k (Text.drop 0 s)) as [m'|] eqn:Hk; [|done].
    intros [= <-]. exists 0, m'. split; [lia|done].
  - destruct (k (Text.drop (S n) s)) as [m'|] eqn:Hk.
    + intros [= <-]. exists (S n), m'. split; [lia|done].
    + destruct (decide (min ≤ n)); [|done].
      intros (j & m' & Hj & Hm)%IH; [|done]. exists j, m'. split; [lia|done].
Qed.

Lemma span_take (cls : ascii → bool) (j : nat) (s : string) :
  j ≤ span cls s →
  String.length (Text.take j s) = j ∧ span cls (Text.take j s) = j.
Proof.
  revert s; induction j as [|j IH]; intros s; [by destruct s|].
  destruct s as [|c s]; simpl; [lia|].
  destruct (cls c) eqn:Hc; [|lia]. intros Hj.
  destruct (IH s) as [H1 H2]; [lia|]. by rewrite H1, H2.
Qed.

Lemma match_here_lit (g : option nat) (l : string) (r : regex) (s : string) :
  match_here ((g, Lit l) :: r) s =
  match Text.strip_prefix l s with
  | Some rest => cons (g, l) <$> match_here r rest
  | None => None
  end.
Proof. reflexivity. Qed.

Lemma match_here_many (g : option nat) (min : nat) (cls : ascii → bool)
    (r : regex) (s : string) :
  match_here ((g, Many min cls) :: r) s =
  if decide (min ≤ span cls s) then greedy (match_here r) g min s (span cls s) else None.
Proof. reflexivity. Qed.

(** [replace] leaves a leading character alone that does not start [old]. *)
Lemma replace_amp_cons (c : ascii) (s : string) :
  c ≠ "&"%char →
  Text.replace (String c s) "&amp;" "&" = String c (Text.replace s "&amp;" "&").
Proof.
  intros Hc. unfold Text.replace. simpl. unfold Text.startswith. simpl.
  by rewrite decide_False by done.
Qed.

End ExtractorFacts.

Module LinkFacts.
Import Re Patterns.

(** The URL the loop over the patterns builds from a match. *)
Lemma link_absolute (pat : regex) (s : string) (m : segments) :
  pat ∈ patterns → search pat s = Some m →
  Text.startswith
    (if Text.startswith (Text.replace (group 1 m) "&amp;" "&") "/"
     then "https://drive.google.com" +:+ Text.replace (group 1 m) "&amp;" "&"
     else Text.replace (group 1 m) "&amp;" "&") "http" = true.
Proof.
  intros Hpat (pre & s' & _ & Hm)%ExtractorFacts.search_Some.
  apply ExtractorFacts.match_here_shape in Hm.
  unfold patterns in Hpat.
  repeat (apply elem_of_cons in Hpat as [->|Hpat]);
    [..|by apply elem_of_nil in Hpat];
    repeat match goal with
      | H : Forall2 _ (_ :: _) _ |- _ =>
          apply Forall2_cons_inv_l in H as ([? ?] & ? & [? ?] & H & ->)
      | H : Forall2 _ [] _ |- _ => apply Forall2_nil_inv_l in H as ->
      end;
    simpl in *; subst;
    rewrite ?TextFacts.app_cons;
    rewrite ?ExtractorFacts.replace_amp_cons by done;
    reflexivity.
Qed.

Lemma first_link_absolute (pats : list regex) (s url : string) :
  pats ⊆ patterns → first_link pats s = Some url → Text.startswith url "http" = true.
Proof.
  induction pats as [|pat pats IH]; intros Hsub; [done|]. simpl.
  destruct (search pat s) as [m|] eqn:Hm.
  - intros [= <-]. apply (link_absolute pat s m); [|done]. set_solver.
  - apply IH. set_solver.
Qed.

End LinkFacts.

(** Every URL the extractor returns starts with the four characters
    [http], whichever of the three strategies produced it; so it is not
    empty and does not start with a slash. *)
Theorem extracted_url_is_absolute (unescape : string → string) (page file_id url : string) :
  _extract_download_url_from_html unescape page file_id = Some url →
  Text.startswith url "http" = true ∧ url ≠ "" ∧ Text.startswith url "/" = false.
Proof.
  intros Hurl.
  assert (Text.startswith url "http" = true) as Hhttp.
  { revert Hurl. unfold _extract_download_url_from_html. cbv zeta.
    destruct (form_url _ _) as [u|] eqn:Hform.
    { intros [= <-]. unfold form_url in Hform.
      destruct (Re.search Patterns.form_re _) as [m|]; [|done].
      cbv zeta in Hform. destruct (_ && _) eqn:Hguard; [|done].
      apply andb_true_iff in Hguard as [_ Hhttp]. injection Hform as <-.
      by apply ExtractorFacts.startswith_app_l. }
    destruct (first_link _ _) as [u|] eqn:Hlink.
    { intros [= <-]. by eapply LinkFacts.first_link_absolute. }
    unfold confirm_url. destruct (Re.search _ _); [|done].
    by intros [= <-]. }
  split; [done|].
  apply ExtractorFacts.startswith_true in Hhttp as [r ->].
  split; [done|]. unfold Text.startswith. apply bool_decide_eq_false. by intros [? ?].
Qed.

Lemma extracted_url_is_absolute_witness :
  Text.startswith "https://drive.google.com/uc?export=download&confirm=t0" "http" = true ∧
  "https://drive.google.com/uc?export=download&confirm=t0" ≠ "" ∧
  Text.startswith "https://drive.google.com/uc?export=download&confirm=t0" "/" = false.
Proof.
  apply (extracted_url_is_absolute Run.plain
           ("<a href=" +:+ Run.quoted "/uc?export=download&amp;confirm=t0" +:+ ">") "FID").
  reflexivity.
Defined.

(** A page whose decoded text has none of the four anchors [<form],
    [href=], [https://drive.] and [confirm=] yields no URL: the extractor
    never makes one up from the resource identifier alone. *)
Theorem no_anchor_no_url (unescape : string → string) (page file_id : string) :
  Text.contains "<form" (unescape page) = false →
  Text.contains "href=" (unescape page) = false →
  Text.contains "https://drive." (unescape page) = false →
  Text.contains "confirm=" (unescape page) = false →
  _extract_download_url_from_html unescape page file_id = None.
Proof.
  intros Hform Hhref Hdrive Hconfirm.
  unfold _extract_download_url_from_html, form_url, confirm_url. cbv zeta.
  unfold Patterns.form_re, Patterns.confirm_re.
  rewrite !ExtractorFacts.search_without_literal by done.
  unfold Patterns.patterns, first_link.
  rewrite (ExtractorFacts.search_without_literal _ ("href=" +:+ Patterns.dq))
    by by apply ExtractorFacts.contains_shorter.
  rewrite (ExtractorFacts.search_without_literal _ "https://drive.google.com/uc?export=download")
    by by apply (ExtractorFacts.contains_shorter _ "https://drive." "google.com/uc?export=download").
  rewrite (ExtractorFacts.search_without_literal _ "https://drive.usercontent.google.com/download?")
    by by apply (ExtractorFacts.contains_shorter _ "https://drive." "usercontent.google.com/download?").
  rewrite (ExtractorFacts.search_without_literal _ "https://drive.usercontent.google.com/uc?")
    by by apply (ExtractorFacts.contains_shorter _ "https://drive." "usercontent.google.com/uc?").
  done.
Qed.

Lemma no_anchor_no_url_witness :
  _extract_download_url_from_html Run.plain
    "<html><body>Sorry, the file you have requested does not exist.</body></html>" "FID"
  = None.
Proof.
  apply (no_anchor_no_url Run.plain
           "<html><body>Sorry, the file you have requested does not exist.</body></html>" "FID");
    reflexivity.
Defined.

(** The token the fallback puts into the URL is never empty and consists
    of the characters [0-9A-Za-z_-] only, so it needs no escaping; the
    resource identifier is appended as it is. *)
Theorem confirm_url_token (s file_id url : string) :
  confirm_url s file_id = Some url →
  ∃ tok, url = "https://drive.google.com/uc?export=download&confirm=" +:+ tok +:+
               "&id=" +:+ file_id ∧
         0 < String.length tok ∧
         Re.span Re.token_char tok = String.length tok.
Proof.
  unfold confirm_url. destruct (Re.search _ _) as [m|] eqn:Hm; [|done].
  intros [= <-].
  apply ExtractorFacts.search_Some in Hm as (pre & s' & _ & Hm).
  unfold Patterns.confirm_re in Hm.
  rewrite ExtractorFacts.match_here_lit in Hm.
  destruct (Text.strip_prefix "confirm=" s') as [rest|]; [|done].
  rewrite ExtractorFacts.match_here_many in Hm.
  destruct (decide (1 ≤ Re.span Re.token_char rest)) as [Hspan|]; [|done].
  destruct (Re.greedy _ _ _ _ _) as [m'|] eqn:Hg; [|done].
  apply ExtractorFacts.greedy_bounds in Hg as (j & m'' & Hj & -> & Hk); [|done].
  injection Hk as <-. injection Hm as <-.
  destruct (ExtractorFacts.span_take Re.token_char j rest) as [Hlen Htok]; [lia|].
  exists (Text.take j rest). simpl. rewrite TextFacts.app_nil_r.
  split; [done|]. rewrite Hlen, Htok. split; [lia|done].
Qed.

Lemma confirm_url_token_witness :
  ∃ tok, "https://drive.google.com/uc?export=download&confirm=XYZ_1-2&id=FID"
         = "https://drive.google.com/uc?export=download&confirm=" +:+ tok +:+ "&id=" +:+ "FID" ∧
         0 < String.length tok ∧
         Re.span Re.token_char tok = String.length tok.
Proof.
  apply (confirm_url_token "go on: confirm=XYZ_1-2&next" "FID").
  reflexivity.
Defined.

Module UrlFacts.

Lemma urlencode_cons (k v : string) (params : list (string * string)) :
  Url.urlencode ((k, v) :: params)
  = Url.quote_plus k +:+ "=" +:+ Url.quote_plus v +:+
    match params with
    | [] => ""
    | _ => "&" +:+ Url.urlencode params
    end.
Proof.
  unfold Url.urlencode. destruct params as [|p params]; simpl.
  - by rewrite TextFacts.app_nil_r.
  - by rewrite !TextFacts.app_assoc.
Qed.

Lemma spec_params_head (pairs : list (string * string)) (file_id : string) :
  ∃ others, spec_params pairs file_id
            = ("id", default file_id (last_value "id" pairs)) :: others.
Proof.
  unfold spec_params, recognized. cbn [omap list_omap].
  destruct (last_value "id" pairs); simpl; eauto.
Qed.

End UrlFacts.

(** A form URL always carries [id] as its first parameter; the value is
    the one of the page's last input named [id] when there is one, and the
    resource identifier of the caller only otherwise. *)
Theorem form_url_id_first (s file_id url : string) :
  form_url s file_id = Some url →
  ∃ action rest,
    url = action +:+ "?id=" +:+
          Url.quote_plus (default file_id (last_value "id" (input_pairs s))) +:+ rest.
Proof.
  unfold form_url. destruct (Re.search _ _) as [m|]; [|done]. cbv zeta.
  fold (input_pairs s). rewrite ParamFacts.select_params_spec.
  destruct (_ && _); [|done]. intros [= <-].
  destruct (UrlFacts.spec_params_head (input_pairs s) file_id) as [others ->].
  rewrite UrlFacts.urlencode_cons. eexists _, _. reflexivity.
Qed.

Lemma form_url_id_first_witness :
  ∃ action rest,
    "https://drive.usercontent.google.com/download?id=FID&confirm=t&uuid=u+1"
    = action +:+ "?id=" +:+
      Url.quote_plus
        (default "FID"
           (last_value "id"
              (input_pairs (Run.form_page "https://drive.usercontent.google.com/download"))))
      +:+ rest.
Proof.
  apply (form_url_id_first (Run.form_page "https://drive.usercontent.google.com/download") "FID").
  reflexivity.
Defined.

(** ** [urlencode] *)

Module QuoteFacts.

Lemma hex_digits_safe (c : ascii) :
  Url.always_safe (Url.hex_digit (nat_of_ascii c / 16)) = true ∧
  Url.always_safe (Url.hex_digit (nat_of_ascii c mod 16)) = true.
Proof. by destruct c as [[] [] [] [] [] [] [] []]. Qed.

Lemma safe_is_query_char (c : ascii) : Url.always_safe c = true → query_char c = true.
Proof. unfold query_char. by intros ->. Qed.

End QuoteFacts.

(** ** [_download_gdrive_zip] *)

Section DownloadFacts.
Import MFacts.

Context (unescape decode : string → string).
Context (ZipFile : string → option (list member)).
Context (server : list string → option response).

Local Abbreviation extract_url := (_extract_download_url_from_html unescape).
Local Abbreviation download := (_download_gdrive_zip unescape decode ZipFile server).
Local Abbreviation extract_csvs := (_extract_csvs ZipFile).
Local Abbreviation ensure := (ensure_dataset unescape decode ZipFile server).

(** Splits a goal about [download file_id w] into the nine paths. *)
Ltac download_paths :=
  rewrite download_eq; cbv zeta;
  destruct (server _) as [?r1|];
    [ destruct (classify _ _);
      [ | destruct (falsy _);
          [ | destruct (server _) as [?r2|];
              [ destruct (classify _ _);
                [ | destruct (falsy _); [ | destruct (server _) as [?r3|] ] ]
              | ] ] ]
    | ];
  rewrite ?validate_written.

(** A first response that is classified as binary ends the negotiation
    after one request: the archive file holds the whole body, the four
    bytes read for the classification included, and nothing validates it. *)
Theorem direct_download_writes_body (file_id : string) (w : world) (r : response) :
  server (requests w ++ [initial_url file_id]) = Some r →
  classify r (Text.take 4 (body r)) = true →
  download file_id w =
  ({| journal := journal w ++ [Requested (initial_url file_id); WroteArchive];
      requests := requests w ++ [initial_url file_id]; out_zip := Some (body r);
      dataset_dir := dataset_dir w; tmp_dir := tmp_dir w |}, Ok tt).
Proof.
  intros Hr Hc. rewrite download_eq. cbv zeta.
  change (requests (requested (initial_url file_id) w))
    with (requests w ++ [initial_url file_id]).
  rewrite Hr, Hc.
  unfold wrote_archive, requested, record, set_out_zip, set_requests. cbn.
  by rewrite <-!app_assoc.
Qed.





(** After a normal return the archive file exists; unless the very first
    response was the download, it opened as an archive. *)
Theorem download_success_archive (file_id : string) (w w' : world) :
  download file_id w = (w', Ok tt) →
  ∃ data, out_zip w' = Some data ∧
          (requests w' = requests w ++ [initial_url file_id] ∨ is_Some (ZipFile data)).
Proof.
  download_paths; intros Hrun; simplify_eq;
    try (eexists; split; [done|by left]);
    (destruct (ZipFile _) eqn:Hzf; simplify_eq;
     eexists; split; [done|right; rewrite Hzf; eauto]).
Qed.

(** The archive file after a normal return is the body of the last
    response of the call. *)
Lemma download_success_body (file_id : string) (w w' : world) :
  download file_id w = (w', Ok tt) →
  ∃ (urls : list string) (r : response),
    requests w' = requests w ++ initial_url file_id :: urls ∧
    server (requests w') = Some r ∧
    out_zip w' = Some (body r) ∧
    ∃ evs, journal w' = journal w ++ Requested (initial_url file_id) :: evs ++ [WroteArchive].
Proof.
  rewrite download_eq. cbv zeta.
  destruct (server _) as [r1|] eqn:Hr1; [|done].
  destruct (classify _ _).
  { intros [= <-]. exists [], r1. cbn in *. rewrite <-app_assoc.
    repeat split; try done. by exists []. }
  destruct (falsy _); [done|].
  destruct (server (requests (requested _ (requested _ w)))) as [r2|] eqn:Hr2; [|done].
  destruct (classify _ _).
  { rewrite validate_written. destruct (ZipFile _); intros [= <-].
    eexists [_], r2. cbn in *. rewrite <-!app_assoc.
    repeat split; try done.
    - by rewrite <-Hr2, <-app_assoc.
    - by eexists [_]. }
  destruct (falsy _); [done|].
  destruct (server (requests (requested _ (requested _ (requested _ w))))) as [r3|] eqn:Hr3;
    [|done].
  rewrite validate_written. destruct (ZipFile _); intros [= <-].
  eexists [_; _], r3. cbn in *. rewrite <-!app_assoc.
  repeat split; try done.
  - by rewrite <-Hr3, <-!app_assoc.
  - by eexists [_; _].
Qed.

End DownloadFacts.

(** ** [_extract_csvs] and [ensure_dataset] *)

Module TreeFacts.

(** Induction on a tree, with the hypothesis for every entry of a directory. *)
Lemma node_induction (P : node → Prop) :
  (∀ data, P (File data)) →
  (∀ cs, Forall (λ nc, P nc.2) cs → P (Dir cs)) →
  ∀ n, P n.
Proof.
  intros Hfile Hdir. fix IH 1. intros [data|cs]; [apply Hfile|apply Hdir].
  revert cs. fix IHcs 1. intros [|[n c] cs]; constructor; [apply IH|apply IHcs].
Qed.

Lemma name_snoc (here : list string) (n : string) : Tree.name (here ++ [n]) = n.
Proof. unfold Tree.name. by rewrite last_snoc. Qed.

(** What [rglob] returns lies strictly below the root and has a matching
    name. *)
Lemma rglob_below (matches : string → bool) (root : node) (here : list string)
    (f : list string * node) :
  f ∈ Tree.rglob matches here root →
  (∃ rest, f.1 = here ++ rest ∧ rest ≠ []) ∧ matches (Tree.name f.1) = true.
Proof.
  revert here. induction root as [data|cs IH] using node_induction; intros here; [by intros ?%elem_of_nil|].
  simpl. rewrite elem_of_app. intros [Hhere|Hbelow].
  - apply list_elem_of_fmap in Hhere as ([n c] & -> & [Hm _]%list_elem_of_filter).
    simpl in *. rewrite name_snoc. split; [by exists [n]|done].
  - induction cs as [|[n c] cs IHcs]; [by apply elem_of_nil in Hbelow|].
    apply Forall_cons in IH as [IHc IH].
    apply elem_of_app in Hbelow as [Hc|Hcs]; [|by apply IHcs].
    apply IHc in Hc as [(rest & -> & _) Hm]. split; [|done].
    exists (n :: rest). by rewrite <-app_assoc.
Qed.


End TreeFacts.

Module CopyFacts.
Import MFacts.

Lemma copy_all_app (a b : list (list string * node)) (w : world) :
  copy_all (a ++ b) w =
  match copy_all a w with
  | (w', Ok _) => copy_all b w'
  | (w', Raise e) => (w', Raise e)
  end.
Proof.
  revert w; induction a as [|f a IH]; intros w; [done|].
  simpl. rewrite !bind_unfold. destruct (copy2 f w) as [w1 [[]|e]]; [apply IH|done].
Qed.

(** The copy loop over files: every file is written under its name, in
    the order of the list. *)
Lemma copy_all_files (files : list (list string * node)) (w : world)
    (d : gmap string string) :
  Forall is_file files → dataset_dir w = Some d →
  copy_all files w =
  ({| journal := journal w ++ (Copied ∘ fst <$> named_files files);
      requests := requests w; out_zip := out_zip w;
      dataset_dir := Some (foldl (λ d kv, <[kv.1 := kv.2]> d) d (named_files files));
      tmp_dir := tmp_dir w |}, Ok tt).
Proof.
  revert w d; induction files as [|[p [data|sub]] files IH]; intros w d Hfiles Hd.
  - destruct w. simpl in *. subst. by rewrite app_nil_r.
  - apply Forall_cons in Hfiles as [_ Hfiles].
    simpl. rewrite bind_unfold, copy2_eq, Hd. simpl.
    rewrite (IH _ (<[Tree.name p := data]> d)) by done.
    cbn. by rewrite <-app_assoc.
  - by apply Forall_cons in Hfiles as [[] _].
Qed.

Lemma copy_all_keeps_zip (csvs : list (list string * node)) (w w' : world)
    (r : result unit) :
  copy_all csvs w = (w', r) → out_zip w' = out_zip w.
Proof.
  revert w; induction csvs as [|f csvs IH]; intros w; [by intros [= <- _]|].
  simpl. rewrite bind_unfold, copy2_eq.
  destruct f.2; [destruct (dataset_dir w)|]; try by intros [= <- _].
  by intros ->%IH.
Qed.

(** A copy loop that ends normally was given files only. *)
Lemma copy_all_ok_files (csvs : list (list string * node)) (w w' : world) :
  copy_all csvs w = (w', Ok tt) → Forall is_file csvs.
Proof.
  revert w; induction csvs as [|[p [data|sub]] csvs IH]; intros w; [done| |].
  - simpl. rewrite bind_unfold, copy2_eq. simpl.
    destruct (dataset_dir w); [|done]. intros Hrest%IH. by constructor.
  - simpl. by rewrite bind_unfold, copy2_eq.
Qed.

Lemma last_value_Some (k v : string) (pairs : list (string * string)) :
  last_value k pairs = Some v → (k, v) ∈ pairs.
Proof.
  induction pairs as [|[n v'] pairs IH]; [done|]. simpl.
  destruct (last_value k pairs) as [v''|].
  - intros [= ->]. by apply list_elem_of_further, IH.
  - destruct (decide (n = k)) as [->|]; [|done]. intros [= ->]. apply list_elem_of_here.
Qed.

Lemma named_files_elem (name data : string) (csvs : list (list string * node)) :
  (name, data) ∈ named_files csvs → ∃ f, f ∈ csvs ∧ name = Tree.name f.1.
Proof.
  unfold named_files. rewrite list_elem_of_omap. intros ([p [d|sub]] & Hf & Hn); [|done].
  simpl in Hn. injection Hn as <- <-. by exists (p, File d).
Qed.

End CopyFacts.

Section ExtractFacts.
Import MFacts CopyFacts.

Context (unescape decode : string → string).
Context (ZipFile : string → option (list member)).
Context (server : list string → option response).

Local Abbreviation download := (_download_gdrive_zip unescape decode ZipFile server).
Local Abbreviation extract_csvs := (_extract_csvs ZipFile).
Local Abbreviation ensure := (ensure_dataset unescape decode ZipFile server).

Lemma find_csvs_below (cs : list (string * node)) (f : list string * node) :
  f ∈ find_csvs cs → is_csv (Tree.name f.1) = true.
Proof.
  unfold find_csvs. cbv zeta.
  destruct (Tree.assoc "dataset" cs) as [[data|sub]|];
    repeat case_match; intros Hf; subst;
    try (by apply elem_of_nil in Hf);
    match goal with
    | H : Tree.rglob _ _ _ = _ |- _ => rewrite <-H in Hf
    | _ => idtac
    end;
    by apply TreeFacts.rglob_below in Hf as [_ ?].
Qed.

(** The destination after a normal return, file by file: a name holds the
    data of the last search result with that name, and no other name is
    there, whatever the destination held before. *)
Theorem destination_last_write_wins (w w' : world) :
  extract_csvs w = (w', Ok tt) →
  ∃ data zf cs d,
    out_zip w = Some data ∧ ZipFile data = Some zf ∧
    Tree.extractall zf [] = (cs, None) ∧
    dataset_dir w' = Some d ∧
    ∀ name, d !! name = last_value name (named_files (find_csvs cs)).
Proof.
  rewrite extract_csvs_eq.
  destruct (out_zip w) as [data|] eqn:Hzip; [|done].
  destruct (ZipFile data) as [zf|] eqn:Hzf; [|done].
  destruct (Tree.extractall zf []) as [cs [e|]] eqn:Hcs; [done|].
  destruct (find_csvs cs) as [|f csvs] eqn:Hfind; [done|].
  destruct (copy_all _ _) as [w2 [[]|e]] eqn:Hcopy; [|done].
  intros [= <-].
  pose proof (copy_all_ok_files _ _ _ Hcopy) as Hfiles.
  rewrite (copy_all_files _ _ ∅ Hfiles) in Hcopy by done. injection Hcopy as <-.
  exists data, zf, cs, (dict (named_files (f :: csvs))).
  repeat split; try done. intros name. rewrite ?Hfind. apply ParamFacts.dict_lookup.
Qed.

(** A directory whose name matches is a search result like a file.  The
    copy loop stops at it with [IsADirectoryError] and leaves the
    destination with the files copied before it. *)
Theorem matching_directory_stops_copy (w : world) (data : string) (zf : list member)
    (cs : list (string * node)) (files rest : list (list string * node))
    (p : list string) (sub : list (string * node)) :
  out_zip w = Some data → ZipFile data = Some zf →
  Tree.extractall zf [] = (cs, None) →
  find_csvs cs = files ++ (p, Dir sub) :: rest → Forall is_file files →
  ∃ w', extract_csvs w = (w', Raise IsADirectoryError) ∧
        dataset_dir w' = Some (dict (named_files files)) ∧ tmp_dir w' = None.
Proof.
  intros Hzip Hzf Hcs Hfind Hfiles.
  rewrite extract_csvs_eq, Hzip, Hzf, Hcs.
  destruct (find_csvs cs) as [|f csvs] eqn:E; [by destruct files|]. rewrite Hfind.
  rewrite copy_all_app, (copy_all_files _ _ ∅ Hfiles) by done.
  cbn [copy_all]. rewrite bind_unfold, copy2_eq. cbn [snd].
  eexists. split; [done|]. by split.
Qed.

(** Every name in the destination ends in [.csv]. *)
Theorem destination_names_end_in_csv (w w' : world) (d : gmap string string) (name : string) :
  extract_csvs w = (w', Ok tt) → dataset_dir w' = Some d →
  is_Some (d !! name) → Text.endswith name ".csv" = true.
Proof.
  rewrite extract_csvs_eq.
  destruct (out_zip w) as [data|]; [|done].
  destruct (ZipFile data) as [zf|]; [|done].
  destruct (Tree.extractall zf []) as [cs [e|]]; [done|].
  destruct (find_csvs cs) as [|f csvs] eqn:Hfind; [done|].
  destruct (copy_all _ _) as [w2 [[]|e]] eqn:Hcopy; [|done].
  intros [= <-] Hd [data' Hname].
  pose proof (copy_all_ok_files _ _ _ Hcopy) as Hfiles.
  rewrite (copy_all_files _ _ ∅ Hfiles) in Hcopy by done. injection Hcopy as <-.
  cbn [dataset_dir set_dataset_dir set_tmp_dir] in Hd. injection Hd as <-.
  change (foldl _ ∅ ?l) with (dict l) in Hname.
  rewrite ParamFacts.dict_lookup in Hname.
  apply last_value_Some in Hname.
  apply (named_files_elem _ _ (f :: csvs)) in Hname as (g & Hg & ->).
  apply (find_csvs_below cs). by rewrite Hfind.
Qed.

(** When the archive has a top-level [dataset] directory with a match in
    it, every search result lies in that directory: a matching file next
    to it is not copied. *)
Theorem dataset_directory_preferred (cs sub : list (string * node))
    (f : list string * node) :
  Tree.assoc "dataset" cs = Some (Dir sub) →
  Tree.rglob is_csv ["dataset"] (Dir sub) ≠ [] →
  f ∈ find_csvs cs → ∃ rest, f.1 = "dataset" :: rest ∧ rest ≠ [].
Proof.
  intros Hdir Hfound. unfold find_csvs. rewrite Hdir. cbv zeta.
  destruct (Tree.rglob is_csv ["dataset"] (Dir sub)) as [|g gs] eqn:E; [done|].
  rewrite <-E. by intros [? _]%TreeFacts.rglob_below.
Qed.

Lemma extract_csvs_keeps_zip (w : world) : out_zip (extract_csvs w).1 = out_zip w.
Proof. apply extract_csvs_same_zip. Qed.


(** The extraction reads the archive file and never changes it, whether
    it returns or raises. *)
Theorem extraction_keeps_archive (w : world) :
  out_zip (extract_csvs w).1 = out_zip w.
Proof. apply extract_csvs_keeps_zip. Qed.

(** With [keep_zip] a run that ends normally leaves in place the archive
    it has downloaded: the file holds the body of the response to the last
    request of this run, the run has made at least the initial request,
    and that body opens as an archive. *)
Theorem kept_archive_is_the_download (file_id : string) (w w' : world) :
  ensure file_id true w = (w', Ok tt) →
  ∃ w1 urls r,
    download file_id (refreshed true w) = (w1, Ok tt) ∧
    requests w' = requests w ++ initial_url file_id :: urls ∧
    server (requests w') = Some r ∧
    out_zip w1 = Some (body r) ∧ out_zip w' = Some (body r) ∧
    is_Some (ZipFile (body r)).
Proof.
  rewrite ensure_dataset_eq.
  destruct (download file_id _) as [w1 [[]|e]] eqn:Hdl; [|done].
  pose proof (extract_csvs_keeps_zip w1) as Hkeep.
  pose proof (extract_csvs_eq ZipFile w1) as Heq.
  destruct (extract_csvs_grew ZipFile w1) as (l & Hreq & Hl).
  destruct (extract_csvs w1) as [w2 [[]|e]]; [|done].
  simpl. intros [= <-]. simpl in Hkeep, Hreq.
  destruct l; [rewrite app_nil_r in Hreq|simpl in Hl; lia].
  destruct (download_success_body _ _ _ _ _ _ _ Hdl) as (urls & r & Hurls & Hr & Hbody & _).
  rewrite Hbody in Heq.
  destruct (ZipFile (body r)) as [zf|] eqn:Hzf; [|done].
  exists w1, urls, r. rewrite Hreq, Hkeep.
  repeat split; eauto.
  rewrite Hurls. f_equal. apply refreshed_dirs.
Qed.


End ExtractFacts.

(** ** Further runs *)

Lemma direct_download_writes_body_witness :
  Run.fetch [Run.octets Run.archive] Run.fresh =
  ({| journal := journal Run.fresh ++ [Requested (initial_url "FID"); WroteArchive];
      requests := requests Run.fresh ++ [initial_url "FID"]; out_zip := Some Run.archive;
      dataset_dir := dataset_dir Run.fresh; tmp_dir := tmp_dir Run.fresh |}, Ok tt).
Proof.
  apply (direct_download_writes_body Run.plain Run.plain Run.ZipFile
           (Run.scripted [Run.octets Run.archive]) "FID" Run.fresh (Run.octets Run.archive));
    reflexivity.
Defined.



Lemma download_success_archive_witness :
  ∃ data,
    out_zip (Run.fetch [Run.html "<html>confirm=abc</html>"; Run.octets Run.archive]
               Run.fresh).1 = Some data ∧
    (requests (Run.fetch [Run.html "<html>confirm=abc</html>"; Run.octets Run.archive]
                 Run.fresh).1 = requests Run.fresh ++ [initial_url "FID"] ∨
     is_Some (Run.ZipFile data)).
Proof.
  apply (download_success_archive Run.plain Run.plain Run.ZipFile
           (Run.scripted [Run.html "<html>confirm=abc</html>"; Run.octets Run.archive])
           "FID" Run.fresh).
  reflexivity.
Defined.

Lemma destination_last_write_wins_witness :
  ∃ data zf cs d,
    out_zip (Run.downloaded "z") = Some data ∧ Some Run.nested_entries = Some zf ∧
    Tree.extractall zf [] = (cs, None) ∧
    dataset_dir (_extract_csvs (λ _, Some Run.nested_entries) (Run.downloaded "z")).1 = Some d ∧
    ∀ name, d !! name = last_value name (named_files (find_csvs cs)).
Proof.
  apply (destination_last_write_wins (λ _, Some Run.nested_entries) (Run.downloaded "z")).
  by vm_compute.
Defined.

(** Of two files named [a.csv] the deeper one is found later and is the
    one the destination holds. *)
Example deeper_file_overwrites :
  dataset_dir (_extract_csvs (λ _, Some Run.nested_entries) (Run.downloaded "z")).1
  = Some {[ "a.csv" := "second" ]}.
Proof. by vm_compute. Qed.

Lemma matching_directory_stops_copy_witness :
  ∃ w', _extract_csvs (λ _, Some Run.dir_entries) (Run.downloaded "z")
        = (w', Raise IsADirectoryError) ∧
        dataset_dir w' = Some (dict (named_files [(["dataset"; "a.csv"], File "a,1")])) ∧
        tmp_dir w' = None.
Proof.
  apply (matching_directory_stops_copy (λ _, Some Run.dir_entries) (Run.downloaded "z")
           "z" Run.dir_entries Run.dir_tree
           [(["dataset"; "a.csv"], File "a,1")] [(["dataset"; "c.csv"], File "c,3")]
           ["dataset"; "b.csv"] [("part0", File "b,2")]); try reflexivity.
  repeat constructor.
Defined.

Lemma destination_names_end_in_csv_witness : Text.endswith "a.csv" ".csv" = true.
Proof.
  apply (destination_names_end_in_csv (λ _, Some Run.nested_entries) (Run.downloaded "z")
           (_extract_csvs (λ _, Some Run.nested_entries) (Run.downloaded "z")).1
           {[ "a.csv" := "second" ]} "a.csv").
  - by vm_compute.
  - by vm_compute.
  - by exists "second".
Defined.

Lemma dataset_directory_preferred_witness :
  ∃ rest, (["dataset"; "sub"; "a.csv"], File "second").1 = "dataset" :: rest ∧ rest ≠ [].
Proof.
  apply (dataset_directory_preferred Run.nested_tree
           [ ("a.csv", File "first"); ("sub", Dir [ ("a.csv", File "second") ]) ]
           (["dataset"; "sub"; "a.csv"], File "second")).
  - reflexivity.
  - by vm_compute.
  - vm_compute. apply list_elem_of_further, list_elem_of_here.
Defined.

Lemma kept_archive_is_the_download_witness :
  ∃ w1 urls r,
    Run.fetch [Run.octets Run.archive] (refreshed true (Run.downloaded "old")) = (w1, Ok tt) ∧
    requests (Run.run [Run.octets Run.archive] true (Run.downloaded "old")).1
    = requests (Run.downloaded "old") ++ initial_url "FID" :: urls ∧
    Run.scripted [Run.octets Run.archive]
      (requests (Run.run [Run.octets Run.archive] true (Run.downloaded "old")).1) = Some r ∧
    out_zip w1 = Some (body r) ∧
    out_zip (Run.run [Run.octets Run.archive] true (Run.downloaded "old")).1 = Some (body r) ∧
    is_Some (Run.ZipFile (body r)).
Proof.
  apply (kept_archive_is_the_download Run.plain Run.plain Run.ZipFile
           (Run.scripted [Run.octets Run.archive]) "FID" (Run.downloaded "old")).
  by vm_compute.
Defined.

(** On that run the old archive is replaced, not reused. *)
Example kept_archive_replaces_old :
  out_zip (Run.run [Run.octets Run.archive] true (Run.downloaded "old")).1 = Some Run.archive ∧
  journal (Run.run [Run.octets Run.archive] true (Run.downloaded "old")).1
  = [ Requested (initial_url "FID"); WroteArchive; MadeScratch; Unpacked; MadeDestination;
      Copied "a.csv"; Copied "b.csv"; RemovedScratch ].
Proof. by vm_compute. Qed.


(** ** The query string of a form URL *)

Module QueryFacts.

Lemma select_params_elem (inputs : gmap string string) (k v : string) :
  (k, v) ∈ select_params inputs → k ∈ recognized.
Proof.
  unfold select_params. rewrite list_elem_of_omap.
  intros (k' & Hk' & Hv). destruct (inputs !! k'); [|done].
  simpl in Hv. by simplify_eq.
Qed.

Lemma select_params_length (inputs : gmap string string) :
  length (select_params inputs) ≤ 4.
Proof.
  unfold select_params, recognized. simpl.
  destruct (inputs !! "id"), (inputs !! "export"), (inputs !! "confirm"),
    (inputs !! "uuid"); simpl; lia.
Qed.

Lemma quote_plus_recognized (k : string) : k ∈ recognized → Url.quote_plus k = k.
Proof.
  unfold recognized. intros Hk.
  repeat (apply elem_of_cons in Hk as [->|Hk]; [reflexivity|]).
  by apply elem_of_nil in Hk.
Qed.

Lemma quote_plus_chars (s : string) :
  Re.span query_char (Url.quote_plus s) = String.length (Url.quote_plus s).
Proof.
  induction s as [|c s IH]; [done|]. cbn [Url.quote_plus].
  destruct (Url.always_safe c) eqn:Hsafe.
  - cbn [Re.span String.length]. by rewrite (QuoteFacts.safe_is_query_char _ Hsafe), IH.
  - destruct (bool_decide (c = " "%char)); cbv zeta; cbn [Re.span String.length].
    + change (query_char "+") with true. cbv iota. by rewrite IH.
    + destruct (QuoteFacts.hex_digits_safe c) as [Hhi Hlo].
      rewrite (QuoteFacts.safe_is_query_char _ Hhi), (QuoteFacts.safe_is_query_char _ Hlo).
      change (query_char "%") with true. cbv iota. by rewrite IH.
Qed.

End QueryFacts.

(** A form URL is the action, a question mark and between one and four
    parts joined by [&]; each part is a recognized name, [=] and a value
    written in letters, digits, [_.-~], [+] and [%] only.  Whatever the
    page puts into an input value, it cannot add a part or end the query. *)
Theorem form_query_is_encoded (s file_id url : string) :
  form_url s file_id = Some url →
  ∃ action parts,
    url = action +:+ "?" +:+ Text.join "&" parts ∧
    1 ≤ length parts ≤ 4 ∧
    Forall (λ part, ∃ k v, part = k +:+ "=" +:+ v ∧ k ∈ recognized ∧
                           Re.span query_char v = String.length v) parts.
Proof.
  unfold form_url. destruct (Re.search _ _) as [m|]; [|done]. cbv zeta.
  set (inputs := setdefault "id" file_id _).
  destruct (bool_decide (select_params inputs ≠ [])) eqn:Hne; [|done].
  apply bool_decide_eq_true in Hne.
  destruct (Text.startswith _ _); [|done]. intros [= <-].
  eexists _, _. split; [reflexivity|]. split.
  - rewrite length_fmap. pose proof (QueryFacts.select_params_length inputs).
    destruct (select_params inputs); [done|]. simpl in *. lia.
  - apply Forall_fmap, Forall_forall. intros [k v] Hkv. simpl.
    apply QueryFacts.select_params_elem in Hkv.
    exists k, (Url.quote_plus v).
    by rewrite (QueryFacts.quote_plus_recognized _ Hkv), QueryFacts.quote_plus_chars.
Qed.

Lemma form_query_is_encoded_witness :
  ∃ action parts,
    "https://drive.usercontent.google.com/download?id=FID&confirm=t&uuid=u+1"
    = action +:+ "?" +:+ Text.join "&" parts ∧
    1 ≤ length parts ≤ 4 ∧
    Forall (λ part, ∃ k v, part = k +:+ "=" +:+ v ∧ k ∈ recognized ∧
                           Re.span query_char v = String.length v) parts.
Proof.
  apply (form_query_is_encoded (Run.form_page "https://drive.usercontent.google.com/download")
           "FID").
  reflexivity.
Defined.
